(** * ML_Fruits: the fruit classifier component (client/src/App.tsx)

    A shallow embedding of the React component [App]: its preprocessing
    pipeline, the prediction routine, the webcam start/stop handlers,
    the model loader and the upload handler, followed by the properties
    of the capture / preprocess / predict / display flow.

    Conventions of the embedding.
    - A JavaScript number is a [number]: NaN, the two infinities, or a
      finite value carried as an exact rational.  Rounding of binary
      floating point and the sign of zero are not represented; the one
      product whose display the specification fixes is also evaluated
      in binary64 at the end of the file.
    - [undefined] and [null] are [None].
    - A handler of the component is a computation in the monad [JS]:
      it takes the component (hooks, refs, and the part of the browser
      and of the tensor runtime that the handlers touch) and returns a
      completion, normal or thrown, together with the new component.
      Effects done before a throw stay done.
    - What the outside world answers (the fetched model, the camera
      grant, the frame under the video element, the decoded upload) is
      an argument of the handler.  An [Event] runs its handler to
      completion before the next one, and the component is rendered
      after it.
    - [startWebcam] awaits the camera before it touches the component,
      so the page can be clicked in between.  A [Page] keeps the
      requests still awaited, and an [Action] on it is an event, a
      click on the start button, the answer to the oldest request, or
      the teardown of the component, whose cleanup runs [stopWebcam]
      once the ref of the video element is detached.
    - A function of the component closes over the [model] of the render
      that created it: [predictImage] takes that model as an argument,
      and a timer keeps the model its callback closed over.
    - [tf.image.resizeBilinear] is a parameter of the component.  The
      statements that depend on what it computes assume a contract,
      and a bilinear resize in exact arithmetic is shown to meet it. *)

From Stdlib Require Import List String ZArith QArith Qround Qabs Bool Lia Lqa.
From Stdlib Require Import DecimalString Floats.
Import ListNotations.
Local Open Scope string_scope.
Local Open Scope Z_scope.

(** ** JavaScript numbers *)

Inductive number : Type :=
| NaN
| NegInfinity
| Infinity
| Fin (q : Q).

(** Sign of a number that is not NaN. *)
Definition sgn (x : number) : comparison :=
  match x with
  | NaN => Eq
  | NegInfinity => Lt
  | Infinity => Gt
  | Fin q => (q ?= 0)%Q
  end.

Definition isNaN (x : number) : bool :=
  match x with NaN => true | _ => false end.

Definition number_neg (x : number) : number :=
  match x with
  | NaN => NaN
  | NegInfinity => Infinity
  | Infinity => NegInfinity
  | Fin q => Fin (- q)
  end.

Definition number_add (x y : number) : number :=
  match x, y with
  | NaN, _ | _, NaN => NaN
  | Fin a, Fin b => Fin (a + b)
  | Infinity, NegInfinity | NegInfinity, Infinity => NaN
  | Infinity, _ | _, Infinity => Infinity
  | NegInfinity, _ | _, NegInfinity => NegInfinity
  end.

Definition number_sub (x y : number) : number := number_add x (number_neg y).

(** [x * y] *)
Definition number_mul (x y : number) : number :=
  match x, y with
  | NaN, _ | _, NaN => NaN
  | Fin a, Fin b => Fin (a * b)
  | _, _ =>
      match sgn x, sgn y with
      | Eq, _ | _, Eq => NaN
      | Lt, Lt | Gt, Gt => Infinity
      | _, _ => NegInfinity
      end
  end.

(** [x / y] *)
Definition number_div (x y : number) : number :=
  match x, y with
  | NaN, _ | _, NaN => NaN
  | Fin a, Fin b =>
      if Qeq_bool b 0
      then match (a ?= 0)%Q with
           | Eq => NaN
           | Gt => Infinity
           | Lt => NegInfinity
           end
      else Fin (a / b)
  | Fin _, _ => Fin 0
  | _, Fin b => match (b ?= 0)%Q with Lt => number_neg x | _ => x end
  | _, _ => NaN
  end.

(** [x < y]: false as soon as one side is NaN. *)
Definition number_ltb (x y : number) : bool :=
  match x, y with
  | NaN, _ | _, NaN => false
  | Fin a, Fin b => negb (Qle_bool b a)
  | NegInfinity, NegInfinity => false
  | NegInfinity, _ => true
  | Infinity, _ => false
  | Fin _, Infinity => true
  | Fin _, NegInfinity => false
  end.

(** [x === y] on numbers: NaN is equal to nothing. *)
Definition number_eqb (x y : number) : bool :=
  match x, y with
  | Fin a, Fin b => Qeq_bool a b
  | Infinity, Infinity => true
  | NegInfinity, NegInfinity => true
  | _, _ => false
  end.

(** [Math.max(...xs)]: NaN if an argument is NaN, otherwise the largest
    argument, and -Infinity when there is none. *)
Definition Math_max (xs : list number) : number :=
  if existsb isNaN xs then NaN
  else fold_left (fun highest x => if number_ltb highest x then x else highest)
                 xs NegInfinity.

(** [xs.indexOf(v)]: the first index whose element is strictly equal to
    [v], or -1. *)
Fixpoint indexOf_from (i : Z) (xs : list number) (v : number) : Z :=
  match xs with
  | [] => -1
  | x :: rest => if number_eqb x v then i else indexOf_from (i + 1) rest v
  end.

Definition indexOf (xs : list number) (v : number) : Z := indexOf_from 0 xs v.

(** [xs[i]]: [undefined] outside of the array. *)
Definition item {A : Type} (xs : list A) (i : Z) : option A :=
  if i <? 0 then None else nth_error xs (Z.to_nat i).

(** Conversion of a possibly undefined operand of an arithmetic
    operator: [undefined] becomes NaN. *)
Definition ToNumber (v : option number) : number :=
  match v with
  | Some x => x
  | None => NaN
  end.

(** [x.toFixed(2)].  The integer [n] for which [n / 100 - x] is closest
    to zero is taken, the larger one on a tie.  Values of magnitude
    1e21 and more are printed by JavaScript in exponent notation, which
    is not reproduced: the result is [None] there. *)
Definition two_digits (n : Z) : string :=
  (if n <? 10 then "0" else "") ++ NilZero.string_of_int (Z.to_int n).

Definition toFixed2_nonneg (q : Q) : string :=
  let n := Qfloor (q * 100 + (1 # 2)) in
  NilZero.string_of_int (Z.to_int (n / 100)) ++ "." ++ two_digits (n mod 100).

Definition toFixed2 (x : number) : option string :=
  match x with
  | NaN => Some "NaN"
  | Infinity => Some "Infinity"
  | NegInfinity => Some "-Infinity"
  | Fin q =>
      if Qle_bool (inject_Z (10 ^ 21)) (Qabs q) then None
      else if Qle_bool 0 q then Some (toFixed2_nonneg q)
      else Some ("-" ++ toFixed2_nonneg (- q))
  end.

(** The exact value of a binary64 number.  The probabilities come out of
    a Float32Array, so the operand of [* 100] is a binary32 value read
    as a binary64 one, and the product is rounded to binary64. *)
Definition number_of_float (x : float) : number :=
  match Prim2SF x with
  | S754_zero _ => Fin 0
  | S754_infinity false => Infinity
  | S754_infinity true => NegInfinity
  | S754_nan => NaN
  | S754_finite negative mantissa exponent =>
      let magnitude := (inject_Z (Z.pos mantissa) * 2 ^ exponent)%Q in
      Fin (if negative then (- magnitude)%Q else magnitude)
  end.

(** 0.7 as stored in a Float32Array. *)
Definition storedSevenTenths : float := 0x1.666666p-1%float.

(** ** Completions *)

(** The way a call ends: normally with a value, or with a thrown error
    (a rejected promise, for an awaited call). *)
Inductive completion (A : Type) : Type :=
| Normal (a : A)
| Throw (error : string).

Arguments Normal {A} a.
Arguments Throw {A} error.

(** ** Tensors and the preprocessing pipeline *)

Record Tensor : Type := mkTensor {
  shape : list nat;
  values : list number
}.

(** The pixel grid that [tf.browser.fromPixels] reads from an image or
    video element: row-major RGBA samples. *)
Record ImageSource : Type := mkImageSource {
  sourceHeight : nat;
  sourceWidth : nat;
  rgba : list Z
}.

Definition FRUIT_CLASSES : list string := ["Manzana"; "Plátano"; "Naranja"].
Definition IMAGE_SIZE : nat := 128.

(** The three colour channels of an RGBA buffer. *)
Fixpoint rgb_channels (samples : list Z) : list Z :=
  match samples with
  | r :: g :: b :: _ :: rest => r :: g :: b :: rgb_channels rest
  | _ => []
  end.

(** [tf.browser.fromPixels(element)]: a tensor of shape
    [height, width, 3]; it throws on an element without pixel data. *)
Definition fromPixels (element : ImageSource) : completion Tensor :=
  if ((sourceHeight element =? 0) || (sourceWidth element =? 0))%nat
  then Throw "fromPixels: the element has no pixel data"
  else Normal {| shape := [sourceHeight element; sourceWidth element; 3%nat];
                 values := map (fun z => Fin (inject_Z z))
                               (rgb_channels (rgba element)) |}.

(** [tensor.div(d)] *)
Definition div (tensor : Tensor) (d : number) : Tensor :=
  {| shape := shape tensor;
     values := map (fun x => number_div x d) (values tensor) |}.

(** [tensor.expandDims(axis)] *)
Definition expandDims (axis : nat) (tensor : Tensor) : Tensor :=
  {| shape := firstn axis (shape tensor) ++ 1%nat :: skipn axis (shape tensor);
     values := values tensor |}.

(** The loaded network.  A forward pass returns the output tensor or
    throws. *)
Record LayersModel : Type := mkLayersModel {
  predict : Tensor -> completion Tensor
}.

(** ** The component *)

Record Prediction : Type := mkPrediction {
  fruit : option string;
  confidence : number
}.

Definition MediaStreamTrack : Type := nat.

(** A media stream, as the list [stream.getTracks()]. *)
Definition MediaStream : Type := list MediaStreamTrack.

Record HTMLVideoElement : Type := mkVideo {
  srcObject : option MediaStream
}.

(** A timer installed by [window.setInterval]: its handle and the
    [model] that the callback closed over. *)
Record Interval : Type := mkInterval {
  handle : Z;
  closure_model : option LayersModel
}.

Record App : Type := mkApp {
  (* useState *)
  model : option LayersModel;
  isModelLoading : bool;
  webcamActive : bool;
  prediction : option Prediction;
  imagePreview : option string;
  (* useRef: the [current] of each ref *)
  videoRef : option HTMLVideoElement;
  intervalRef : option Z;
  (* browser *)
  console : list string;
  alerts : list string;
  intervals : list Interval;
  nextHandle : Z;
  liveTracks : list MediaStreamTrack;
  (* tensor runtime: tf.memory().numTensors, and the number of calls of
     model.predict so far *)
  numTensors : nat;
  forwardPasses : nat
}.

Definition initial : App :=
  {| model := None; isModelLoading := true; webcamActive := false;
     prediction := None; imagePreview := None;
     videoRef := None; intervalRef := None;
     console := []; alerts := []; intervals := []; nextHandle := 1;
     liveTracks := []; numTensors := 0; forwardPasses := 0 |}.

Definition with_model (v : option LayersModel) (s : App) : App :=
  mkApp v (isModelLoading s) (webcamActive s) (prediction s) (imagePreview s)
        (videoRef s) (intervalRef s) (console s) (alerts s) (intervals s)
        (nextHandle s) (liveTracks s) (numTensors s) (forwardPasses s).

Definition with_isModelLoading (v : bool) (s : App) : App :=
  mkApp (model s) v (webcamActive s) (prediction s) (imagePreview s)
        (videoRef s) (intervalRef s) (console s) (alerts s) (intervals s)
        (nextHandle s) (liveTracks s) (numTensors s) (forwardPasses s).

Definition with_webcamActive (v : bool) (s : App) : App :=
  mkApp (model s) (isModelLoading s) v (prediction s) (imagePreview s)
        (videoRef s) (intervalRef s) (console s) (alerts s) (intervals s)
        (nextHandle s) (liveTracks s) (numTensors s) (forwardPasses s).

Definition with_prediction (v : option Prediction) (s : App) : App :=
  mkApp (model s) (isModelLoading s) (webcamActive s) v (imagePreview s)
        (videoRef s) (intervalRef s) (console s) (alerts s) (intervals s)
        (nextHandle s) (liveTracks s) (numTensors s) (forwardPasses s).

Definition with_imagePreview (v : option string) (s : App) : App :=
  mkApp (model s) (isModelLoading s) (webcamActive s) (prediction s) v
        (videoRef s) (intervalRef s) (console s) (alerts s) (intervals s)
        (nextHandle s) (liveTracks s) (numTensors s) (forwardPasses s).

Definition with_videoRef (v : option HTMLVideoElement) (s : App) : App :=
  mkApp (model s) (isModelLoading s) (webcamActive s) (prediction s)
        (imagePreview s) v (intervalRef s) (console s) (alerts s)
        (intervals s) (nextHandle s) (liveTracks s) (numTensors s)
        (forwardPasses s).

Definition with_intervalRef (v : option Z) (s : App) : App :=
  mkApp (model s) (isModelLoading s) (webcamActive s) (prediction s)
        (imagePreview s) (videoRef s) v (console s) (alerts s)
        (intervals s) (nextHandle s) (liveTracks s) (numTensors s)
        (forwardPasses s).

Definition with_console (v : list string) (s : App) : App :=
  mkApp (model s) (isModelLoading s) (webcamActive s) (prediction s)
        (imagePreview s) (videoRef s) (intervalRef s) v (alerts s)
        (intervals s) (nextHandle s) (liveTracks s) (numTensors s)
        (forwardPasses s).

Definition with_alerts (v : list string) (s : App) : App :=
  mkApp (model s) (isModelLoading s) (webcamActive s) (prediction s)
        (imagePreview s) (videoRef s) (intervalRef s) (console s) v
        (intervals s) (nextHandle s) (liveTracks s) (numTensors s)
        (forwardPasses s).

Definition with_intervals (v : list Interval) (next : Z) (s : App) : App :=
  mkApp (model s) (isModelLoading s) (webcamActive s) (prediction s)
        (imagePreview s) (videoRef s) (intervalRef s) (console s) (alerts s)
        v next (liveTracks s) (numTensors s) (forwardPasses s).

Definition with_liveTracks (v : list MediaStreamTrack) (s : App) : App :=
  mkApp (model s) (isModelLoading s) (webcamActive s) (prediction s)
        (imagePreview s) (videoRef s) (intervalRef s) (console s) (alerts s)
        (intervals s) (nextHandle s) v (numTensors s) (forwardPasses s).

Definition with_numTensors (v : nat) (s : App) : App :=
  mkApp (model s) (isModelLoading s) (webcamActive s) (prediction s)
        (imagePreview s) (videoRef s) (intervalRef s) (console s) (alerts s)
        (intervals s) (nextHandle s) (liveTracks s) v (forwardPasses s).

Definition with_forwardPasses (v : nat) (s : App) : App :=
  mkApp (model s) (isModelLoading s) (webcamActive s) (prediction s)
        (imagePreview s) (videoRef s) (intervalRef s) (console s) (alerts s)
        (intervals s) (nextHandle s) (liveTracks s) (numTensors s) v.

(** ** The monad of handlers *)

Definition JS (A : Type) : Type := App -> completion A * App.

Definition ret {A : Type} (a : A) : JS A := fun s => (Normal a, s).

Definition throw {A : Type} (error : string) : JS A := fun s => (Throw error, s).

Definition bind {A B : Type} (c : JS A) (k : A -> JS B) : JS B :=
  fun s =>
    match c s with
    | (Normal a, s') => k a s'
    | (Throw error, s') => (Throw error, s')
    end.

(** [await] of a call whose outcome the outside world decides. *)
Definition await {A : Type} (outcome : completion A) : JS A :=
  fun s => (outcome, s).

(** [try { body } catch (error) { handler }] *)
Definition try_catch {A : Type} (body : JS A) (handler : string -> JS A) : JS A :=
  fun s =>
    match body s with
    | (Normal a, s') => (Normal a, s')
    | (Throw error, s') => handler error s'
    end.

(** [try { body } catch (error) { handler } finally { finalizer }] *)
Definition try_catch_finally {A : Type}
    (body : JS A) (handler : string -> JS A) (finalizer : JS unit) : JS A :=
  fun s =>
    let (result, s1) := try_catch body handler s in
    match finalizer s1 with
    | (Normal _, s2) => (result, s2)
    | (Throw error, s2) => (Throw error, s2)
    end.

(** The component after a computation. *)
Definition after {A : Type} (c : JS A) (s : App) : App := snd (c s).

(** How a computation ends. *)
Definition outcome_of {A : Type} (c : JS A) (s : App) : completion A := fst (c s).

Declare Scope js_scope.
Delimit Scope js_scope with js.
Notation "x <- c ;; k" := (bind c (fun x => k))
  (at level 61, c at next level, right associativity) : js_scope.
Notation "c ;; k" := (bind c (fun _ => k))
  (at level 61, right associativity) : js_scope.
Local Open Scope js_scope.

Definition update (f : App -> App) : JS unit := fun s => (Normal tt, f s).

(** State setters and refs. *)
Definition setModel (v : option LayersModel) : JS unit := update (with_model v).
Definition setIsModelLoading (v : bool) : JS unit := update (with_isModelLoading v).
Definition setWebcamActive (v : bool) : JS unit := update (with_webcamActive v).
Definition setPrediction (v : option Prediction) : JS unit := update (with_prediction v).
Definition setImagePreview (v : option string) : JS unit := update (with_imagePreview v).

(** Browser calls. *)
Definition console_log (message : string) : JS unit :=
  update (fun s => with_console (console s ++ [message]) s).

Definition console_error (message error : string) : JS unit :=
  update (fun s => with_console (console s ++ [message ++ " " ++ error]) s).

Definition alert (message : string) : JS unit :=
  update (fun s => with_alerts (alerts s ++ [message]) s).

(** [window.setInterval(callback, 1000)]: the callback is kept with a
    fresh handle, which is returned. *)
Definition setInterval (captured : option LayersModel) : JS Z :=
  fun s =>
    let id := nextHandle s in
    (Normal id,
     with_intervals (intervals s ++ [mkInterval id captured]) (id + 1) s).

(** [clearInterval(id)] *)
Definition clearInterval (id : Z) : JS unit :=
  update (fun s =>
    with_intervals (filter (fun t => negb (handle t =? id)) (intervals s))
                   (nextHandle s) s).

(** [navigator.mediaDevices.getUserMedia(...)]: on a grant the tracks
    of the stream are live. *)
Definition getUserMedia (reply : completion MediaStream) : JS MediaStream :=
  match reply with
  | Normal stream =>
      (update (fun s => with_liveTracks (liveTracks s ++ stream) s) ;; ret stream)
  | Throw error => throw error
  end.

(** [track.stop()] *)
Definition track_stop (track : MediaStreamTrack) : JS unit :=
  update (fun s =>
    with_liveTracks (filter (fun t => negb (t =? track)%nat) (liveTracks s)) s).

(** [xs.forEach(f)] *)
Fixpoint forEach {A : Type} (xs : list A) (f : A -> JS unit) : JS unit :=
  match xs with
  | [] => ret tt
  | x :: rest => (f x ;; forEach rest f)
  end.

(** Tensor runtime. [tf.tidy(fn)] keeps the tensor that [fn] returns and
    frees the intermediate ones, also when [fn] throws. *)
Definition tidy (fn : completion Tensor) : JS Tensor :=
  match fn with
  | Normal tensor =>
      (update (fun s => with_numTensors (S (numTensors s)) s) ;; ret tensor)
  | Throw error => throw error
  end.

(** [model.predict(input)]: one forward pass; the output is a new
    tensor. *)
Definition model_predict (m : LayersModel) (input : Tensor) : JS Tensor :=
  (update (fun s => with_forwardPasses (S (forwardPasses s)) s) ;;
   match predict m input with
   | Normal output =>
       (update (fun s => with_numTensors (S (numTensors s)) s) ;; ret output)
   | Throw error => throw error
   end).

(** [tensor.data()] *)
Definition data (tensor : Tensor) : JS (list number) := ret (values tensor).

(** [tensor.dispose()] *)
Definition dispose (tensor : Tensor) : JS unit :=
  update (fun s => with_numTensors (pred (numTensors s)) s).

(** Reading a ref or the state of the current render. *)
Definition read {A : Type} (field : App -> A) : JS A := fun s => (Normal (field s), s).

(** A file picked in the upload control, once read and decoded:
    [decoded] is [None] when the image never fires its load event. *)
Record File : Type := mkFile {
  dataURL : string;
  decoded : option ImageSource
}.

(** What happens to the component. *)
Inductive Event : Type :=
| ModelFetched (fetched : completion LayersModel)
| StartWebcam (reply : completion MediaStream)
| StopWebcam
| IntervalTick (id : Z) (frame : ImageSource)
| ImageUpload (file : option File).

(** The page: the component, the camera requests that [startWebcam]
    is still awaiting (oldest first, each with the [model] of the render
    whose button was clicked), and whether the component is mounted. *)
Record Page : Type := mkPage {
  component : App;
  awaited : list (option LayersModel);
  mounted : bool
}.

(** What happens on the page.  [Handled e] is an event whose handler
    runs at once to its end; for [StartWebcam] that is a click answered
    at once.  [StartClicked] runs [startWebcam] up to its [await], and
    [CameraAnswered] runs the rest when the oldest request is answered.
    [Unmounted] is the teardown of the component. *)
Inductive Action : Type :=
| Handled (e : Event)
| StartClicked
| CameraAnswered (reply : completion MediaStream)
| Unmounted.

Section Component.

(** [tf.image.resizeBilinear] of the tensor runtime. *)
Variable resizeBilinear : Tensor -> nat * nat -> Tensor.

(** The body of the [tf.tidy] call of [preprocessImage]. *)
Definition preprocess (imageElement : ImageSource) : completion Tensor :=
  match fromPixels imageElement with
  | Normal tensor =>
      let tensor := resizeBilinear tensor (IMAGE_SIZE, IMAGE_SIZE) in
      let tensor := div tensor (Fin 255) in
      Normal (expandDims 0 tensor)
  | Throw error => Throw error
  end.

(** [preprocessImage] (lines 64-80). *)
Definition preprocessImage (imageElement : ImageSource) : JS Tensor :=
  tidy (preprocess imageElement).

(** [predictImage] (lines 83-110) of a render whose [model] is [m]. *)
Definition predictImage (m : option LayersModel) (imageElement : ImageSource)
  : JS unit :=
  match m with
  | None => ret tt
  | Some loaded =>
      try_catch
        (preprocessed <- preprocessImage imageElement ;;
         predictions <- model_predict loaded preprocessed ;;
         probabilities <- data predictions ;;
         let maxIndex := indexOf probabilities (Math_max probabilities) in
         let confidence :=
           number_mul (ToNumber (item probabilities maxIndex)) (Fin 100) in
         setPrediction (Some {| fruit := item FRUIT_CLASSES maxIndex;
                                confidence := confidence |}) ;;
         dispose preprocessed ;;
         dispose predictions)
        (fun error => console_error "Error en la predicción:" error)
  end.

(** The callback given to [setInterval] by [startWebcam] (lines
    124-128); [captured] is the [model] of the render that created it,
    and [frame] is what the video element shows when the timer fires. *)
Definition sample (captured : option LayersModel) (frame : ImageSource)
  : JS unit :=
  video <- read videoRef ;;
  match video, captured with
  | Some _, Some _ => predictImage captured frame
  | _, _ => ret tt
  end.

(** [startWebcam] (lines 113-134); [reply] is the answer to the camera
    request. *)
Definition startWebcam (reply : completion MediaStream) : JS unit :=
  try_catch
    (stream <- getUserMedia reply ;;
     video <- read videoRef ;;
     match video with
     | Some _ =>
         update (with_videoRef (Some (mkVideo (Some stream)))) ;;
         setWebcamActive true ;;
         captured <- read model ;;
         id <- setInterval captured ;;
         update (with_intervalRef (Some id))
     | None => ret tt
     end)
    (fun error =>
       console_error "Error al acceder a la webcam:" error ;;
       alert "No se pudo acceder a la cámara. Verifica los permisos.").

(** [startWebcam] from its [await] on (lines 115-133), in a call whose
    render had [captured] as its [model]. *)
Definition resumeStartWebcam (captured : option LayersModel)
    (reply : completion MediaStream) : JS unit :=
  try_catch
    (stream <- getUserMedia reply ;;
     video <- read videoRef ;;
     match video with
     | Some _ =>
         update (with_videoRef (Some (mkVideo (Some stream)))) ;;
         setWebcamActive true ;;
         id <- setInterval captured ;;
         update (with_intervalRef (Some id))
     | None => ret tt
     end)
    (fun error =>
       console_error "Error al acceder a la webcam:" error ;;
       alert "No se pudo acceder a la cámara. Verifica los permisos.").

(** [stopWebcam] (lines 137-151).  The cleanup of the component (lines
    154-158) calls it too, once the ref of the video element is
    detached: see [perform]. *)
Definition stopWebcam : JS unit :=
  video <- read videoRef ;;
  match video with
  | Some element =>
      match srcObject element with
      | Some stream =>
          forEach stream track_stop ;;
          update (with_videoRef (Some (mkVideo None)))
      | None => ret tt
      end
  | None => ret tt
  end ;;
  current <- read intervalRef ;;
  match current with
  | Some id =>
      if id =? 0 then ret tt
      else (clearInterval id ;; update (with_intervalRef None))
  | None => ret tt
  end ;;
  setWebcamActive false ;;
  setPrediction None.

(** [loadModel] (lines 26-59); [fetched] is how [tf.ready],
    [tf.loadLayersModel] and [compile] end together. *)
Definition loadModel (fetched : completion LayersModel) : JS unit :=
  try_catch_finally
    (setIsModelLoading true ;;
     loadedModel <- await fetched ;;
     setModel (Some loadedModel) ;;
     console_log "Modelo cargado exitosamente" ;;
     console_log "Shape de entrada esperado:")
    (fun error =>
       console_error "Error al cargar el modelo:" error ;;
       alert "Error al cargar el modelo. Verifica que los archivos estén en /public/model/")
    (setIsModelLoading false).

(** [handleImageUpload] (lines 161-175), from the change event to the
    end of the image's load handler. *)
Definition handleImageUpload (file : option File) : JS unit :=
  match file with
  | None => ret tt
  | Some f =>
      match decoded f with
      | Some img =>
          setImagePreview (Some (dataURL f)) ;;
          m <- read model ;;
          predictImage m img
      | None => ret tt
      end
  end.

(** The video element exists exactly while the render shows the
    webcam section, that is under [!isModelLoading && model]. *)
Definition modelReady (s : App) : bool :=
  negb (isModelLoading s) && match model s with Some _ => true | None => false end.

Definition render (s : App) : App :=
  if modelReady s
  then match videoRef s with
       | Some _ => s
       | None => with_videoRef (Some (mkVideo None)) s
       end
  else with_videoRef None s.

(** The handler that an event runs to its end.  A tick runs the
    callback of the timer with that handle, if it is still installed.
    [StartWebcam] is [startWebcam] with its camera request answered at
    once; the click and the answer apart, and the teardown of the
    component, are actions of the page: see [perform]. *)
Definition dispatch (e : Event) : JS unit :=
  match e with
  | ModelFetched fetched => loadModel fetched
  | StartWebcam reply => startWebcam reply
  | StopWebcam => stopWebcam
  | IntervalTick id frame =>
      active <- read intervals ;;
      match find (fun t => handle t =? id) active with
      | Some t => sample (closure_model t) frame
      | None => ret tt
      end
  | ImageUpload file => handleImageUpload file
  end.

Definition step (s : App) (e : Event) : App := render (after (dispatch e) s).

Definition run (s : App) (events : list Event) : App := fold_left step events s.

(** The start button is shown under [!isModelLoading && model] and
    [!webcamActive]. *)
Definition startOffered (s : App) : bool := modelReady s && negb (webcamActive s).

(** A sequence of events in which every [StartWebcam], a click answered
    at once, happens in a component satisfying [gate]. *)
Fixpoint startsOnlyWhen (gate : App -> bool) (s : App) (events : list Event) : Prop :=
  match events with
  | [] => True
  | e :: rest =>
      match e with
      | StartWebcam _ => gate s = true
      | _ => True
      end /\ startsOnlyWhen gate (step s e) rest
  end.

Definition isModelFetched (e : Event) : bool :=
  match e with ModelFetched _ => true | _ => false end.

(** One action on the page.  After the teardown the handlers that still
    run (answers, timers) find no video element and nothing is rendered;
    the hooks keep what the handlers last set, and nothing shows them.
    At the teardown React first detaches the ref of the video element
    and then runs the cleanup of the effect (lines 154-158), which calls
    [stopWebcam]. *)
Definition perform (p : Page) (a : Action) : Page :=
  match a with
  | Handled e =>
      mkPage (if mounted p then step (component p) e
              else after (dispatch e) (component p))
             (awaited p) (mounted p)
  | StartClicked =>
      mkPage (component p) (awaited p ++ [model (component p)]) (mounted p)
  | CameraAnswered reply =>
      match awaited p with
      | [] => p
      | captured :: rest =>
          let s := after (resumeStartWebcam captured reply) (component p) in
          mkPage (if mounted p then render s else s) rest (mounted p)
      end
  | Unmounted =>
      if mounted p
      then mkPage (after stopWebcam (with_videoRef None (component p)))
                  (awaited p) false
      else p
  end.

Definition performAll (p : Page) (actions : list Action) : Page :=
  fold_left perform actions p.

(** What the page lets happen: the start button is rendered under
    [!isModelLoading && model] and [!webcamActive], the stop button
    under [!isModelLoading && model] and [webcamActive], the upload
    control under [!isModelLoading && model]; a timer fires while it is
    installed; the model arrives while it is loading; an answer needs
    an awaited request. *)
Definition offered (p : Page) (a : Action) : bool :=
  match a with
  | StartClicked | Handled (StartWebcam _) =>
      mounted p && startOffered (component p)
  | Handled StopWebcam =>
      mounted p && modelReady (component p) && webcamActive (component p)
  | Handled (ImageUpload _) => mounted p && modelReady (component p)
  | Handled (IntervalTick id _) =>
      existsb (fun t => handle t =? id) (intervals (component p))
  | Handled (ModelFetched _) => isModelLoading (component p)
  | CameraAnswered _ => match awaited p with [] => false | _ => true end
  | Unmounted => mounted p
  end.

(** As [offered], for a user who does not click the start button again
    while a camera request is awaited, on a page that stays mounted. *)
Definition offeredPatiently (p : Page) (a : Action) : bool :=
  offered p a &&
  match a with
  | StartClicked | Handled (StartWebcam _) =>
      match awaited p with [] => true | _ => false end
  | Unmounted => false
  | _ => true
  end.

(** A sequence of actions, each allowed by [allowed] on the page it
    happens on. *)
Fixpoint throughUI (allowed : Page -> Action -> bool) (p : Page)
    (actions : list Action) : Prop :=
  match actions with
  | [] => True
  | a :: rest => allowed p a = true /\ throughUI allowed (perform p a) rest
  end.

End Component.

(** The page as it opens. *)
Definition opened : Page := mkPage initial [] true.

(** ** A bilinear resize in exact arithmetic

    An instance of [resizeBilinear] for tensors of rank 3: every output
    sample is interpolated between the four source samples around the
    position [i * inSize / outSize] (corners not aligned), first along
    the columns and then along the rows. *)

Definition sourcePosition (inSize outSize i : nat) : Q :=
  (Z.of_nat inSize # Pos.of_nat outSize) * inject_Z (Z.of_nat i).

Definition lowerIndex (position : Q) : nat := Z.to_nat (Z.max 0 (Qfloor position)).

Definition upperIndex (inSize : nat) (position : Q) : nat :=
  Z.to_nat (Z.min (Z.of_nat inSize - 1) (Qceiling position)).

Definition fraction (position : Q) : Q :=
  position - inject_Z (Z.max 0 (Qfloor position)).

Definition sampleAt (tensor : Tensor) (width channels row col ch : nat) : number :=
  nth ((row * width + col) * channels + ch)%nat (values tensor) NaN.

Definition lerp (a b frac : number) : number :=
  number_add a (number_mul (number_sub b a) frac).

Definition interpolate (tensor : Tensor) (height width channels newHeight newWidth : nat)
    (r c ch : nat) : number :=
  let rowPosition := sourcePosition height newHeight r in
  let colPosition := sourcePosition width newWidth c in
  let rowFloor := lowerIndex rowPosition in
  let rowCeil := upperIndex height rowPosition in
  let colFloor := lowerIndex colPosition in
  let colCeil := upperIndex width colPosition in
  let colFrac := Fin (fraction colPosition) in
  let top := lerp (sampleAt tensor width channels rowFloor colFloor ch)
                  (sampleAt tensor width channels rowFloor colCeil ch) colFrac in
  let bottom := lerp (sampleAt tensor width channels rowCeil colFloor ch)
                     (sampleAt tensor width channels rowCeil colCeil ch) colFrac in
  lerp top bottom (Fin (fraction rowPosition)).

Definition bilinear (tensor : Tensor) (size : nat * nat) : Tensor :=
  match shape tensor with
  | [height; width; channels] =>
      let (newHeight, newWidth) := size in
      {| shape := [newHeight; newWidth; channels];
         values :=
           flat_map (fun r =>
             flat_map (fun c =>
               map (interpolate tensor height width channels newHeight newWidth r c)
                   (seq 0 channels))
               (seq 0 newWidth))
             (seq 0 newHeight) |}
  | _ => tensor
  end.

(** ** Fixtures: a model mock, a small image, a camera stream *)

(** A model whose forward pass returns the given probabilities. *)
Definition mockModel (probabilities : list number) : LayersModel :=
  {| predict := fun _ =>
       Normal {| shape := [1%nat; List.length probabilities]; values := probabilities |} |}.

(** A model whose forward pass fails. *)
Definition brokenModel : LayersModel :=
  {| predict := fun _ => Throw "forward pass failed" |}.

(** A 2 by 2 image: black, white, red, mid grey. *)
Definition smallImage : ImageSource :=
  {| sourceHeight := 2; sourceWidth := 2;
     rgba := [0; 0; 0; 255;   255; 255; 255; 255;
              255; 0; 0; 255;   128; 128; 128; 255] |}.

Definition camera : MediaStream := [7%nat].
Definition secondCamera : MediaStream := [8%nat].

(** The probabilities of the three classes used in the examples. *)
Definition fixedVector : list Q := [1 # 10; 7 # 10; 2 # 10]%Q.
Definition stubModel : LayersModel := mockModel (map Fin fixedVector).

(** The tensor that the pipeline makes of [smallImage]. *)
Definition smallPixels : Tensor :=
  {| shape := [2; 2; 3]%nat;
     values := map (fun z => Fin (inject_Z z)) (rgb_channels (rgba smallImage)) |}.

Definition smallInput : Tensor :=
  expandDims 0 (div (bilinear smallPixels (IMAGE_SIZE, IMAGE_SIZE)) (Fin 255)).

(** The component once [stubModel] is loaded. *)
Definition readyToClassify : App :=
  step bilinear initial (ModelFetched (Normal stubModel)).

Definition upload : Event :=
  ImageUpload (Some {| dataURL := "data:image/png;base64,AA==";
                       decoded := Some smallImage |}).

(** A session driven through the buttons; it ends with the webcam on. *)
Definition session : list Event :=
  [ModelFetched (Normal stubModel);
   StartWebcam (Normal camera);
   IntervalTick 1 smallImage;
   StopWebcam;
   StopWebcam;
   upload;
   StartWebcam (Throw "NotAllowedError");
   StartWebcam (Normal secondCamera);
   IntervalTick 2 smallImage].

(** The same session, stopped, followed by an upload. *)
Definition idle : list Event := session ++ [StopWebcam; upload].

(** Handlers called after the model failed to load. *)
Definition afterFailure : list Event :=
  [StartWebcam (Normal camera); IntervalTick 1 smallImage; upload; StopWebcam].

(** A model that returns a NaN among its probabilities. *)
Definition nanModel : LayersModel := mockModel [Fin (1 # 2); NaN].

(** Four probabilities, the largest one after the three classes. *)
Definition wideVector : list Q := [1 # 10; 1 # 10; 1 # 10; 7 # 10]%Q.
Definition wideModel : LayersModel := mockModel (map Fin wideVector).


(** Two starts in a row, then stops and a further start. *)
Definition doubleStart : list Event :=
  [ModelFetched (Normal stubModel);
   StartWebcam (Normal camera);
   StartWebcam (Normal secondCamera)].

Definition laterEvents : list Event :=
  [StopWebcam; StartWebcam (Normal camera); IntervalTick 3 smallImage;
   StopWebcam; StopWebcam].

(** Two clicks on the start button while the camera request is awaited,
    both granted. *)
Definition doubleClick : list Action :=
  [Handled (ModelFetched (Normal stubModel));
   StartClicked;
   StartClicked;
   CameraAnswered (Normal camera);
   CameraAnswered (Normal secondCamera)].

(** One click on the start button, granted. *)
Definition grantedStart : list Action :=
  [Handled (ModelFetched (Normal stubModel));
   StartClicked;
   CameraAnswered (Normal camera)].

(** The same, then the teardown of the component. *)
Definition teardown : list Action := grantedStart ++ [Unmounted].

(** One click on the start button, its camera request still awaited
    while an image is uploaded. *)
Definition awaitingAnswer : list Action :=
  [Handled (ModelFetched (Normal stubModel)); StartClicked; Handled upload].

(** A session of a patient user: the start button is clicked only when
    nothing is awaited. *)
Definition patientSession : list Action :=
  [Handled (ModelFetched (Normal stubModel));
   StartClicked;
   Handled upload;
   CameraAnswered (Normal camera);
   Handled (IntervalTick 1 smallImage);
   Handled StopWebcam;
   StartClicked;
   CameraAnswered (Throw "NotAllowedError");
   Handled (StartWebcam (Normal secondCamera));
   Handled (IntervalTick 2 smallImage)].

(** ** Vocabulary of the statements *)

(** A finite number between two bounds. *)
Definition within (lo hi : Q) (x : number) : Prop :=
  exists q, x = Fin q /\ (lo <= q <= hi)%Q.

(** An element that carries a full grid of 8-bit RGBA samples. *)
Definition validImage (element : ImageSource) : Prop :=
  (0 < sourceHeight element)%nat /\
  (0 < sourceWidth element)%nat /\
  List.length (rgba element) = (4 * (sourceHeight element * sourceWidth element))%nat /\
  Forall (fun z => 0 <= z <= 255) (rgba element).

(** What the pipeline relies on from [tf.image.resizeBilinear]: on a
    tensor of rank 3 holding a full grid it returns a full grid of the
    requested height and width with the same channels, and it does not
    leave the range of the samples it interpolates. *)
Definition resizeContract (resize : Tensor -> nat * nat -> Tensor) : Prop :=
  forall tensor height width channels size,
    shape tensor = [height; width; channels] ->
    (0 < height)%nat -> (0 < width)%nat ->
    List.length (values tensor) = (height * width * channels)%nat ->
    shape (resize tensor size) = [fst size; snd size; channels] /\
    List.length (values (resize tensor size)) =
      (fst size * snd size * channels)%nat /\
    forall lo hi,
      Forall (within lo hi) (values tensor) ->
      Forall (within lo hi) (values (resize tensor size)).

(** The tracks still live once every track of [stream] was stopped. *)
Fixpoint remaining (stream : MediaStream) (live : list MediaStreamTrack)
  : list MediaStreamTrack :=
  match stream with
  | [] => live
  | track :: rest => remaining rest (filter (fun t => negb (t =? track)%nat) live)
  end.

(** The refs and the browser after [stopWebcam], field by field. *)
Definition stoppedVideo (s : App) : option HTMLVideoElement :=
  match videoRef s with
  | Some element =>
      match srcObject element with
      | Some _ => Some (mkVideo None)
      | None => Some element
      end
  | None => None
  end.

Definition stoppedTracks (s : App) : list MediaStreamTrack :=
  match videoRef s with
  | Some element =>
      match srcObject element with
      | Some stream => remaining stream (liveTracks s)
      | None => liveTracks s
      end
  | None => liveTracks s
  end.

Definition clearedRef (s : App) : option Z :=
  match intervalRef s with
  | Some id => if id =? 0 then Some id else None
  | None => None
  end.

Definition clearedIntervals (s : App) : list Interval :=
  match intervalRef s with
  | Some id =>
      if id =? 0 then intervals s
      else filter (fun t => negb (handle t =? id)) (intervals s)
  | None => intervals s
  end.

(** Invariant of every run: handles are positive, and a component whose
    webcam flag is off holds no timer handle and shows no stream. *)
Definition settled (s : App) : Prop :=
  0 < nextHandle s /\
  (forall id, intervalRef s = Some id -> 0 < id) /\
  (webcamActive s = false ->
   intervalRef s = None /\
   forall element, videoRef s = Some element -> srcObject element = None).

(** Invariant of the runs in which every start is a click on the shown
    start button answered at once, and of the sessions of a patient
    user on the page: the Active state holds one timer, one stream on
    the video element and the tracks of that stream; the Inactive state
    holds none of them. *)
Definition oneSession (s : App) : Prop :=
  0 < nextHandle s /\
  (modelReady s = true -> videoRef s <> None) /\
  if webcamActive s
  then modelReady s = true /\
       exists t stream,
         intervals s = [t] /\ intervalRef s = Some (handle t) /\ 0 < handle t /\
         videoRef s = Some (mkVideo (Some stream)) /\ liveTracks s = stream
  else intervals s = [] /\ intervalRef s = None /\ liveTracks s = [] /\
       forall element, videoRef s = Some element -> srcObject element = None.

(** Invariant of the sessions of a patient user: the page is mounted,
    the component is in one of the two states of [oneSession], and at
    most one camera request is awaited, made with the current model
    while the start button is still shown. *)
Definition patientPage (p : Page) : Prop :=
  mounted p = true /\
  oneSession (component p) /\
  match awaited p with
  | [] => True
  | [captured] =>
      startOffered (component p) = true /\ captured = model (component p)
  | _ => False
  end.

(** The component once the model failed to load. *)
Definition modelUnavailable (s : App) : Prop :=
  model s = None /\ isModelLoading s = false /\ videoRef s = None /\
  intervals s = [] /\ forwardPasses s = 0%nat /\ prediction s = None.

(** The prediction that [predictImage] builds from the probabilities
    (lines 94-102). *)
Definition emitted (probabilities : list number) : Prediction :=
  let maxIndex := indexOf probabilities (Math_max probabilities) in
  {| fruit := item FRUIT_CLASSES maxIndex;
     confidence := number_mul (ToNumber (item probabilities maxIndex)) (Fin 100) |}.

(** Handles are given out in increasing order: every installed timer
    and the handle in [intervalRef] are below the next one. *)
Definition freshHandles (s : App) : Prop :=
  Forall (fun t => handle t < nextHandle s) (intervals s) /\
  forall id, intervalRef s = Some id -> id < nextHandle s.

(** A model whose forward pass never throws. *)
Definition reliable (m : LayersModel) : Prop :=
  forall input, exists output, predict m input = Normal output.

(** An event that brings no model other than a reliable one. *)
Definition bringsReliableModel (e : Event) : Prop :=
  match e with
  | ModelFetched (Normal loaded) => reliable loaded
  | _ => True
  end.

(** No tensor is allocated, and the models that the component and its
    timers hold are reliable. *)
Definition leakFree (s : App) : Prop :=
  numTensors s = 0%nat /\
  (forall m, model s = Some m -> reliable m) /\
  Forall (fun t => forall m, closure_model t = Some m -> reliable m) (intervals s).

(** ** Proof automation *)

Ltac break :=
  repeat match goal with
         | H : _ /\ _ |- _ => destruct H
         | H : exists _, _ |- _ => destruct H
         | H : Some _ = Some _ |- _ => injection H as H
         | H : forall element, Some ?x = Some element -> _ |- _ =>
             specialize (H _ eq_refl); cbn in H
         | H : true = true -> _ |- _ => specialize (H eq_refl)
         | H : ?x <> ?x |- _ => exfalso; apply H; reflexivity
         | H : ?x = _ |- _ => is_var x; subst x
         | H : _ = ?x |- _ => is_var x; subst x
         end.

Ltac handles :=
  repeat match goal with
         | |- context [?a =? 0] =>
             let E := fresh in destruct (a =? 0) eqn:E; [lia|]
         end;
  rewrite ?Z.eqb_refl; cbn.

(** ** The maximum and its first index *)

Section Selection.

Local Open Scope Q_scope.

Lemma fold_higher_finite (qs : list Q) : forall a,
  exists m,
    fold_left (fun highest x => if number_ltb highest x then x else highest)
              (map Fin qs) (Fin a) = Fin m /\
    (m = a \/ In m qs) /\ a <= m /\ Forall (fun q => q <= m) qs.
Proof.
  induction qs as [|q rest IH]; intro a; simpl.
  - exists a. repeat split; auto. apply Qle_refl.
  - destruct (Qle_bool q a) eqn:E; simpl.
    + apply Qle_bool_iff in E.
      destruct (IH a) as (m & Hm & Hin & Hle & Hall).
      exists m. repeat split; auto.
      * destruct Hin; auto.
      * constructor; auto. eapply Qle_trans; eauto.
    + assert (a < q) as Hlt.
      { apply Qnot_le_lt. intro H. apply Qle_bool_iff in H. congruence. }
      destruct (IH q) as (m & Hm & Hin & Hle & Hall).
      exists m. repeat split; auto.
      * destruct Hin; auto.
      * apply Qlt_le_weak. eapply Qlt_le_trans; eauto.
Qed.

Lemma no_NaN_among_finite (qs : list Q) : existsb isNaN (map Fin qs) = false.
Proof. induction qs; simpl; auto. Qed.

Lemma Math_max_finite (qs : list Q) :
  qs <> [] ->
  exists m, Math_max (map Fin qs) = Fin m /\ In m qs /\ Forall (fun q => q <= m) qs.
Proof.
  intro Hne. unfold Math_max. rewrite no_NaN_among_finite.
  destruct qs as [|q rest]; [congruence|]. simpl.
  destruct (fold_higher_finite rest q) as (m & Hm & Hin & Hle & Hall).
  exists m. repeat split; auto.
  destruct Hin; auto.
Qed.

Lemma indexOf_from_first (qs : list Q) : forall i m,
  In m qs ->
  exists k q, indexOf_from i (map Fin qs) (Fin m) = (i + Z.of_nat k)%Z /\
              nth_error qs k = Some q /\ q == m /\
              forall j qj, (j < k)%nat -> nth_error qs j = Some qj -> ~ qj == m.
Proof.
  induction qs as [|q rest IH]; intros i m Hin; [destruct Hin|].
  simpl. destruct (Qeq_bool q m) eqn:E.
  - exists 0%nat, q. repeat split.
    + lia.
    + now apply Qeq_bool_iff.
    + intros j qj Hj. lia.
  - assert (In m rest) as Hrest.
    { destruct Hin as [->|]; auto.
      rewrite (proj2 (Qeq_bool_iff m m)) in E; [discriminate|reflexivity]. }
    destruct (IH (i + 1)%Z m Hrest) as (k & q' & Hidx & Hnth & Heq & Hfirst).
    exists (S k), q'. repeat split; auto.
    + rewrite Hidx. lia.
    + intros [|j] qj Hj Hnthj; simpl in Hnthj.
      * injection Hnthj as <-. intro H. apply Qeq_bool_iff in H. congruence.
      * apply (Hfirst j); auto. lia.
Qed.

Lemma first_maximum (qs : list Q) :
  qs <> [] ->
  exists k q, indexOf (map Fin qs) (Math_max (map Fin qs)) = Z.of_nat k /\
              nth_error qs k = Some q /\
              (forall j qj, nth_error qs j = Some qj -> qj <= q) /\
              (forall j qj, (j < k)%nat -> nth_error qs j = Some qj -> qj < q).
Proof.
  intro Hne.
  destruct (Math_max_finite qs Hne) as (m & Hmax & Hin & Hall).
  destruct (indexOf_from_first qs 0 m Hin) as (k & q & Hidx & Hnth & Heq & Hfirst).
  exists k, q. unfold indexOf. rewrite Hmax, Hidx. repeat split; auto.
  - intros j qj Hj. rewrite Heq. rewrite Forall_forall in Hall.
    apply Hall. eapply nth_error_In; eauto.
  - intros j qj Hlt Hj. rewrite Heq.
    assert (qj <= m) as Hle.
    { rewrite Forall_forall in Hall. apply Hall. eapply nth_error_In; eauto. }
    apply Qle_lteq in Hle as [Hlt'|Heq']; auto.
    exfalso. exact (Hfirst j qj Hlt Hj Heq').
Qed.

End Selection.

(** ** The bilinear instance meets the contract *)

Section Interpolation.

Local Open Scope Q_scope.

Lemma Zpos_of_nat (n : nat) : (0 < n)%nat -> Z.pos (Pos.of_nat n) = Z.of_nat n.
Proof.
  intro H. destruct n as [|n]; [lia|].
  rewrite <- Pos.of_nat_succ, Zpos_P_of_succ_nat. lia.
Qed.

Lemma sourcePosition_bounds inSize outSize i :
  (i < outSize)%nat -> (0 < inSize)%nat ->
  0 <= sourcePosition inSize outSize i /\
  sourcePosition inSize outSize i < inject_Z (Z.of_nat inSize).
Proof.
  intros Hi Hin. unfold sourcePosition, Qle, Qlt, Qmult, inject_Z. simpl.
  rewrite Pos.mul_1_r, Zpos_of_nat by lia. split; nia.
Qed.

Lemma Qfloor_nonneg (x : Q) : 0 <= x -> (0 <= Qfloor x)%Z.
Proof. intro H. apply (Qfloor_resp_le 0 x) in H. exact H. Qed.

Lemma lowerIndex_lt inSize outSize i :
  (i < outSize)%nat -> (0 < inSize)%nat ->
  (lowerIndex (sourcePosition inSize outSize i) < inSize)%nat.
Proof.
  intros Hi Hin. destruct (sourcePosition_bounds inSize outSize i Hi Hin) as [Hlo Hhi].
  unfold lowerIndex.
  assert (Qfloor (sourcePosition inSize outSize i) < Z.of_nat inSize)%Z.
  { rewrite Zlt_Qlt. eapply Qle_lt_trans; [apply Qfloor_le|exact Hhi]. }
  lia.
Qed.

Lemma upperIndex_lt inSize position :
  (0 < inSize)%nat -> (upperIndex inSize position < inSize)%nat.
Proof. intro Hin. unfold upperIndex. lia. Qed.

Lemma fraction_unit (position : Q) :
  0 <= position -> 0 <= fraction position <= 1.
Proof.
  intro Hpos. unfold fraction.
  rewrite Z.max_r by (apply Qfloor_nonneg; exact Hpos).
  pose proof (Qfloor_le position) as Hle.
  pose proof (Qlt_floor position) as Hlt.
  rewrite inject_Z_plus in Hlt. change (inject_Z 1) with 1 in Hlt.
  split; lra.
Qed.

Lemma lerp_within lo hi a b f :
  within lo hi a -> within lo hi b -> 0 <= f <= 1 ->
  within lo hi (lerp a b (Fin f)).
Proof.
  intros (qa & -> & Ha) (qb & -> & Hb) Hf. unfold lerp. simpl.
  eexists. split; [reflexivity|].
  split; nra.
Qed.

Lemma sampleAt_within lo hi tensor height width channels row col ch :
  List.length (values tensor) = (height * width * channels)%nat ->
  Forall (within lo hi) (values tensor) ->
  (row < height)%nat -> (col < width)%nat -> (ch < channels)%nat ->
  within lo hi (sampleAt tensor width channels row col ch).
Proof.
  intros Hlen Hall Hr Hc Hch. unfold sampleAt.
  rewrite Forall_forall in Hall. apply Hall. apply nth_In. rewrite Hlen.
  assert (row * width + col + 1 <= height * width)%nat as Hpixel by nia.
  apply (Nat.mul_le_mono_r _ _ channels) in Hpixel. lia.
Qed.

Lemma interpolate_within lo hi tensor height width channels newHeight newWidth r c ch :
  List.length (values tensor) = (height * width * channels)%nat ->
  Forall (within lo hi) (values tensor) ->
  (0 < height)%nat -> (0 < width)%nat ->
  (r < newHeight)%nat -> (c < newWidth)%nat -> (ch < channels)%nat ->
  within lo hi (interpolate tensor height width channels newHeight newWidth r c ch).
Proof.
  intros Hlen Hall Hh Hw Hr Hc Hch. unfold interpolate.
  destruct (sourcePosition_bounds height newHeight r Hr Hh) as [Hrow _].
  destruct (sourcePosition_bounds width newWidth c Hc Hw) as [Hcol _].
  repeat apply lerp_within;
    try (apply fraction_unit; assumption);
    eapply sampleAt_within; eauto using lowerIndex_lt, upperIndex_lt.
Qed.

Lemma bilinear_shape tensor height width channels size :
  shape tensor = [height; width; channels] ->
  shape (bilinear tensor size) = [fst size; snd size; channels].
Proof. intro Hs. unfold bilinear. rewrite Hs. destruct size. reflexivity. Qed.

Lemma bilinear_range tensor height width channels size lo hi :
  shape tensor = [height; width; channels] ->
  (0 < height)%nat -> (0 < width)%nat ->
  List.length (values tensor) = (height * width * channels)%nat ->
  Forall (within lo hi) (values tensor) ->
  Forall (within lo hi) (values (bilinear tensor size)).
Proof.
  intros Hs Hh Hw Hlen Hall. unfold bilinear. rewrite Hs.
  destruct size as [newHeight newWidth]. simpl.
  apply Forall_forall. intros x Hx.
  apply in_flat_map in Hx as (r & Hr & Hx).
  apply in_flat_map in Hx as (c & Hc & Hx).
  apply in_map_iff in Hx as (ch & <- & Hch).
  apply in_seq in Hr, Hc, Hch.
  eapply interpolate_within; eauto; lia.
Qed.

Lemma rgb_channels_length (n : nat) : forall samples,
  List.length samples = (4 * n)%nat -> List.length (rgb_channels samples) = (3 * n)%nat.
Proof.
  induction n as [|n IH]; intros samples Hlen.
  - destruct samples; [reflexivity|discriminate].
  - destruct samples as [|r [|g [|b [|a rest]]]]; simpl in Hlen; try lia.
    simpl. rewrite (IH rest) by lia. lia.
Qed.

Lemma rgb_channels_Forall (P : Z -> Prop) (n : nat) : forall samples,
  List.length samples = (4 * n)%nat -> Forall P samples -> Forall P (rgb_channels samples).
Proof.
  induction n as [|n IH]; intros samples Hlen Hall.
  - destruct samples; [constructor|discriminate].
  - destruct samples as [|r [|g [|b [|a rest]]]]; simpl in Hlen; try lia.
    inversion Hall as [|? ? Hr Hall1]; subst.
    inversion Hall1 as [|? ? Hg Hall2]; subst.
    inversion Hall2 as [|? ? Hb Hall3]; subst.
    inversion Hall3 as [|? ? Ha Hall4]; subst.
    simpl. repeat constructor; auto. apply IH; auto. lia.
Qed.

Lemma bilinear_length tensor height width channels size :
  shape tensor = [height; width; channels] ->
  List.length (values (bilinear tensor size)) = (fst size * snd size * channels)%nat.
Proof.
  intro Hs. unfold bilinear. rewrite Hs. destruct size as [newHeight newWidth]. simpl.
  rewrite (flat_map_constant_length (c := (newWidth * channels)%nat)).
  - rewrite length_seq. lia.
  - intros r _. rewrite (flat_map_constant_length (c := channels)).
    + rewrite length_seq. reflexivity.
    + intros c _. rewrite length_map, length_seq. reflexivity.
Qed.

(** The colour sample [ch] of pixel [i] is sample [4 * i + ch] of the
    RGBA buffer. *)
Lemma rgb_channels_nth (i ch : nat) : forall samples (d : Z),
  (ch < 3)%nat -> (4 * i + 3 < List.length samples)%nat ->
  nth (3 * i + ch) (rgb_channels samples) d = nth (4 * i + ch) samples d.
Proof.
  induction i as [|i IH]; intros samples d Hch Hlen;
    destruct samples as [|r [|g [|b [|a rest]]]]; simpl in Hlen; try lia.
  - destruct ch as [|[|[|ch]]]; try lia; reflexivity.
  - replace (3 * S i + ch)%nat with (S (S (S (3 * i + ch)))) by lia.
    replace (4 * S i + ch)%nat with (S (S (S (S (4 * i + ch))))) by lia.
    cbn [rgb_channels nth]. apply IH; [exact Hch|lia].
Qed.

Lemma Forall2_map_right {A B : Type} (f : A -> B) (R : A -> B -> Prop) (l : list A) :
  Forall (fun x => R x (f x)) l -> Forall2 R l (map f l).
Proof. induction 1; simpl; constructor; auto. Qed.

Lemma bilinear_contract : resizeContract bilinear.
Proof.
  intros tensor height width channels size Hs Hh Hw Hlen. split; [|split].
  - apply (bilinear_shape _ _ _ _ _ Hs).
  - apply (bilinear_length _ _ _ _ _ Hs).
  - intros lo hi. apply (bilinear_range _ _ _ _ _ _ _ Hs Hh Hw Hlen).
Qed.

End Interpolation.

(** ** What each handler does *)

Section Handlers.

Variable resize : Tensor -> nat * nat -> Tensor.

Lemma predictImage_absent img s :
  predictImage resize None img s = (Normal tt, s).
Proof. reflexivity. Qed.

(** The three ways through the [try] block of [predictImage]. *)
Lemma predictImage_when_forward_pass_returns loaded img input output s :
  preprocess resize img = Normal input ->
  predict loaded input = Normal output ->
  predictImage resize (Some loaded) img s =
  (Normal tt,
   with_forwardPasses (S (forwardPasses s))
     (with_prediction
        (Some {| fruit :=
                   item FRUIT_CLASSES
                        (indexOf (values output) (Math_max (values output)));
                 confidence :=
                   number_mul
                     (ToNumber
                        (item (values output)
                              (indexOf (values output) (Math_max (values output)))))
                     (Fin 100) |})
        s)).
Proof.
  intros Hpre Hfwd.
  unfold predictImage, try_catch, bind, preprocessImage, model_predict.
  rewrite Hpre. simpl. unfold bind. simpl. rewrite Hfwd. reflexivity.
Qed.

Lemma predictImage_when_forward_pass_throws loaded img input error s :
  preprocess resize img = Normal input ->
  predict loaded input = Throw error ->
  predictImage resize (Some loaded) img s =
  (Normal tt,
   with_console (console s ++ [("Error en la predicción:" ++ " " ++ error)%string])
     (with_forwardPasses (S (forwardPasses s))
        (with_numTensors (S (numTensors s)) s))).
Proof.
  intros Hpre Hfwd.
  unfold predictImage, try_catch, bind, preprocessImage, model_predict.
  rewrite Hpre. simpl. unfold bind. simpl. rewrite Hfwd. reflexivity.
Qed.

Lemma predictImage_when_preprocess_throws loaded img error s :
  preprocess resize img = Throw error ->
  predictImage resize (Some loaded) img s =
  (Normal tt,
   with_console (console s ++ [("Error en la predicción:" ++ " " ++ error)%string]) s).
Proof.
  intros Hpre.
  unfold predictImage, try_catch, bind, preprocessImage, model_predict.
  rewrite Hpre. reflexivity.
Qed.

(** Whatever happens, [predictImage] completes normally and touches only
    the prediction, the console and the counters of the tensor runtime. *)
Lemma predictImage_effect m img s :
  exists p c n f,
    predictImage resize m img s =
    (Normal tt,
     mkApp (model s) (isModelLoading s) (webcamActive s) p (imagePreview s)
           (videoRef s) (intervalRef s) c (alerts s) (intervals s)
           (nextHandle s) (liveTracks s) n f).
Proof.
  destruct m as [loaded|].
  - destruct (preprocess resize img) as [input|error] eqn:Hpre.
    + destruct (predict loaded input) as [output|error] eqn:Hfwd.
      * rewrite (predictImage_when_forward_pass_returns _ _ _ _ _ Hpre Hfwd).
        do 4 eexists. reflexivity.
      * rewrite (predictImage_when_forward_pass_throws _ _ _ _ _ Hpre Hfwd).
        do 4 eexists. reflexivity.
    + rewrite (predictImage_when_preprocess_throws _ _ _ _ Hpre).
      do 4 eexists. reflexivity.
  - rewrite predictImage_absent. destruct s. do 4 eexists. reflexivity.
Qed.

(** The same holds of a timer tick, and of an upload up to the preview. *)
Lemma dispatch_passive e s :
  match e with IntervalTick _ _ | ImageUpload _ => True | _ => False end ->
  exists p ip c n f,
    dispatch resize e s =
    (Normal tt,
     mkApp (model s) (isModelLoading s) (webcamActive s) p ip
           (videoRef s) (intervalRef s) c (alerts s) (intervals s)
           (nextHandle s) (liveTracks s) n f).
Proof.
  destruct e as [| | |id frame|file]; try contradiction; intros _.
  - unfold dispatch, bind, read.
    destruct (find (fun t => handle t =? id) (intervals s)) as [t|].
    + unfold sample, bind, read.
      destruct (videoRef s) eqn:Hv, (closure_model t) as [loaded|];
        try (destruct s; simpl in *; subst; do 5 eexists; reflexivity).
      destruct (predictImage_effect (Some loaded) frame s) as (p & c & n & f & E).
      rewrite E, Hv. do 5 eexists. reflexivity.
    + destruct s. do 5 eexists. reflexivity.
  - unfold dispatch, handleImageUpload.
    destruct file as [[url [img|]]|]; simpl;
      try (destruct s; do 5 eexists; reflexivity).
    unfold bind, setImagePreview, update, read.
    destruct (predictImage_effect (model (with_imagePreview (Some url) s)) img
                (with_imagePreview (Some url) s)) as (p & c & n & f & E).
    rewrite E. simpl. do 5 eexists. reflexivity.
Qed.

(** Rendering only mounts or unmounts the video element. *)
Lemma render_videoRef s :
  exists v, render s = with_videoRef v s /\
            (v = videoRef s \/ v = Some (mkVideo None) \/ v = None).
Proof.
  unfold render. destruct (modelReady s).
  - destruct (videoRef s) eqn:E.
    + exists (Some h). split; auto. destruct s; simpl in *; subst; reflexivity.
    + eexists; split; eauto.
  - eexists; split; eauto.
Qed.

(** Induction principle for gated runs. *)
Lemma run_preserves (gate : App -> bool) (Inv : App -> Prop) :
  (forall s e, Inv s ->
     match e with StartWebcam _ => gate s = true | _ => True end ->
     Inv (step resize s e)) ->
  forall events s,
    Inv s -> startsOnlyWhen resize gate s events -> Inv (run resize s events).
Proof.
  intros Hstep events. induction events as [|e rest IH]; intros s Hinv Hgate; simpl.
  - exact Hinv.
  - destruct Hgate as [He Hrest]. apply IH; auto.
Qed.

Lemma forEach_track_stop stream : forall s,
  forEach stream track_stop s =
  (Normal tt, with_liveTracks (remaining stream (liveTracks s)) s).
Proof.
  induction stream as [|track rest IH]; intro s; simpl.
  - destruct s; reflexivity.
  - unfold bind, track_stop, update. rewrite IH. reflexivity.
Qed.

Lemma remaining_none stream : forall live,
  (forall t, In t live -> In t stream) -> remaining stream live = [].
Proof.
  induction stream as [|track rest IH]; intros live Hsub; simpl.
  - destruct live as [|t ?]; auto. destruct (Hsub t); simpl; auto.
  - apply IH. intros t Ht. apply filter_In in Ht as [Hin Hne].
    destruct (Hsub t Hin) as [->|]; auto.
    rewrite Nat.eqb_refl in Hne. discriminate.
Qed.

Lemma stopWebcam_effect s :
  stopWebcam s =
  (Normal tt,
   mkApp (model s) (isModelLoading s) false None (imagePreview s)
         (stoppedVideo s) (clearedRef s) (console s) (alerts s)
         (clearedIntervals s) (nextHandle s) (stoppedTracks s)
         (numTensors s) (forwardPasses s)).
Proof.
  unfold stopWebcam, stoppedVideo, stoppedTracks, clearedRef, clearedIntervals.
  unfold bind at 1. unfold read at 1.
  destruct (videoRef s) as [[[stream|]]|] eqn:Hv; cbn [srcObject];
    unfold bind, read, ret, update, setWebcamActive, setPrediction, clearInterval;
    rewrite ?forEach_track_stop; cbn;
    destruct (intervalRef s) as [id|] eqn:Hi; cbn; try destruct (id =? 0) eqn:Hz;
    unfold update, with_prediction, with_webcamActive, with_videoRef, with_liveTracks,
      with_intervalRef, with_intervals;
    cbn; rewrite ?Hv, ?Hi; reflexivity.
Qed.

Lemma startWebcam_rejected error s :
  startWebcam (Throw error) s =
  (Normal tt,
   with_alerts
     (alerts s ++ ["No se pudo acceder a la cámara. Verifica los permisos."%string])
     (with_console
        (console s ++ [("Error al acceder a la webcam:" ++ " " ++ error)%string]) s)).
Proof. reflexivity. Qed.

Lemma startWebcam_unmounted stream s :
  videoRef s = None ->
  startWebcam (Normal stream) s = (Normal tt, with_liveTracks (liveTracks s ++ stream) s).
Proof.
  intro Hv. unfold startWebcam, try_catch, bind, getUserMedia, update, read, ret. simpl.
  rewrite Hv. reflexivity.
Qed.

Lemma startWebcam_granted stream element s :
  videoRef s = Some element ->
  startWebcam (Normal stream) s =
  (Normal tt,
   mkApp (model s) (isModelLoading s) true (prediction s) (imagePreview s)
         (Some (mkVideo (Some stream))) (Some (nextHandle s)) (console s) (alerts s)
         (intervals s ++ [mkInterval (nextHandle s) (model s)]) (nextHandle s + 1)
         (liveTracks s ++ stream) (numTensors s) (forwardPasses s)).
Proof.
  intro Hv. unfold startWebcam, try_catch, bind, getUserMedia, update, read, ret. simpl.
  rewrite Hv. reflexivity.
Qed.

Lemma loadModel_loaded loaded s :
  loadModel (Normal loaded) s =
  (Normal tt,
   mkApp (Some loaded) false (webcamActive s) (prediction s) (imagePreview s)
         (videoRef s) (intervalRef s)
         ((console s ++ ["Modelo cargado exitosamente"%string])
            ++ ["Shape de entrada esperado:"%string])
         (alerts s) (intervals s) (nextHandle s) (liveTracks s)
         (numTensors s) (forwardPasses s)).
Proof. reflexivity. Qed.

Lemma loadModel_failed error s :
  loadModel (Throw error) s =
  (Normal tt,
   mkApp (model s) false (webcamActive s) (prediction s) (imagePreview s)
         (videoRef s) (intervalRef s)
         (console s ++ [("Error al cargar el modelo:" ++ " " ++ error)%string])
         (alerts s ++
            ["Error al cargar el modelo. Verifica que los archivos estén en /public/model/"%string])
         (intervals s) (nextHandle s) (liveTracks s)
         (numTensors s) (forwardPasses s)).
Proof. reflexivity. Qed.

Ltac finish :=
  repeat split; intros; break; cbn in *;
  try discriminate; try lia; try congruence; eauto 10;
  try (handles; reflexivity);
  try (apply remaining_none; cbn; tauto).

Lemma settled_step s e : settled s -> settled (step resize s e).
Proof.
  intros (Hnext & Hpos & Hidle). unfold step, after.
  destruct (render_videoRef (snd (dispatch resize e s))) as (v & -> & Hv).
  destruct e as [fetched|reply| |id frame|file].
  - destruct fetched as [loaded|error]; unfold dispatch in *;
      [rewrite loadModel_loaded in *|rewrite loadModel_failed in *]; simpl in *;
      (repeat split; simpl; auto; try (apply Hidle; assumption);
       intros element He; destruct Hv as [->|[->| ->]]; try discriminate;
       [apply Hidle; auto | injection He as <-; reflexivity]).
  - unfold dispatch in *. destruct reply as [stream|error].
    + destruct (videoRef s) as [element|] eqn:Hvs.
      * rewrite (startWebcam_granted _ _ _ Hvs) in *. simpl in *.
        repeat split; simpl; try lia; try discriminate.
        intros id [= <-]. lia.
      * rewrite (startWebcam_unmounted _ _ Hvs) in *. simpl in *.
        repeat split; simpl; auto; try (apply Hidle; assumption).
        intros element He. destruct Hv as [->|[->| ->]]; try discriminate.
        -- congruence.
        -- injection He as <-; reflexivity.
    + rewrite startWebcam_rejected in *. simpl in *.
      repeat split; simpl; auto; try (apply Hidle; assumption).
      intros element He. destruct Hv as [->|[->| ->]]; try discriminate;
        [apply Hidle; auto | injection He as <-; reflexivity].
  - unfold dispatch in *. rewrite stopWebcam_effect in *. simpl in *.
    assert (clearedRef s = None) as Hcleared.
    { unfold clearedRef. destruct (intervalRef s) as [id|] eqn:Hi; auto.
      specialize (Hpos id eq_refl). destruct (id =? 0) eqn:Hz; auto. lia. }
    repeat split; simpl; auto.
    + rewrite Hcleared. discriminate.
    + intros element He. destruct Hv as [->|[->| ->]]; try discriminate.
      * unfold stoppedVideo in He.
        destruct (videoRef s) as [[[stream|]]|]; simpl in He; try discriminate;
          injection He as <-; reflexivity.
      * injection He as <-; reflexivity.
  - destruct (dispatch_passive (IntervalTick id frame) s I) as (p & ip & c & n & f & E).
    rewrite E in *. simpl in *.
    repeat split; simpl; auto; try (apply Hidle; assumption).
    intros element He. destruct Hv as [->|[->| ->]]; try discriminate;
      [apply Hidle; auto | injection He as <-; reflexivity].
  - destruct (dispatch_passive (ImageUpload file) s I) as (p & ip & c & n & f & E).
    rewrite E in *. simpl in *.
    repeat split; simpl; auto; try (apply Hidle; assumption).
    intros element He. destruct Hv as [->|[->| ->]]; try discriminate;
      [apply Hidle; auto | injection He as <-; reflexivity].
Qed.


Lemma render_mounted s element :
  modelReady s = true -> videoRef s = Some element -> render s = s.
Proof. intros Hr Hv. unfold render. rewrite Hr, Hv. reflexivity. Qed.

Lemma oneSession_step s e :
  oneSession s ->
  match e with StartWebcam _ => startOffered s = true | _ => True end ->
  oneSession (step resize s e).
Proof.
  intros Hinv Hgate. unfold step, after.
  destruct e as [fetched|reply| |id frame|file].
  - unfold dispatch.
    destruct fetched as [loaded|error];
      [rewrite loadModel_loaded|rewrite loadModel_failed];
      destruct s as [m l a p ip v i c al ts nh lt nt fp];
      unfold oneSession, render, modelReady in *; cbn in *;
      destruct a, m, v as [[[?|]]|]; cbn in *; break; cbn in *; finish.
  - unfold dispatch.
    destruct reply as [stream|error];
      [destruct (videoRef s) as [element|] eqn:Hv;
       [rewrite (startWebcam_granted _ _ _ Hv)|rewrite (startWebcam_unmounted _ _ Hv)]
      |rewrite startWebcam_rejected];
      destruct s as [m l a p ip v i c al ts nh lt nt fp];
      unfold oneSession, render, modelReady, startOffered in *; cbn in *;
      destruct a, l, m, v as [[[?|]]|]; cbn in *; break; cbn in *; finish.
  - unfold dispatch. rewrite stopWebcam_effect.
    destruct s as [m l a p ip v i c al ts nh lt nt fp];
      unfold oneSession, render, modelReady, stoppedVideo, stoppedTracks,
        clearedRef, clearedIntervals in *; cbn in *;
      destruct a, l, m, v as [[[?|]]|]; cbn in *; break; cbn in *; finish.
  - destruct (dispatch_passive (IntervalTick id frame) s I) as (p' & ip' & c' & n' & f' & ->).
    destruct s as [m l a p ip v i c al ts nh lt nt fp];
      unfold oneSession, render, modelReady in *; cbn in *;
      destruct a, l, m, v as [[[?|]]|]; cbn in *; break; cbn in *; finish.
  - destruct (dispatch_passive (ImageUpload file) s I) as (p' & ip' & c' & n' & f' & ->).
    destruct s as [m l a p ip v i c al ts nh lt nt fp];
      unfold oneSession, render, modelReady in *; cbn in *;
      destruct a, l, m, v as [[[?|]]|]; cbn in *; break; cbn in *; finish.
Qed.

End Handlers.

(** ** Properties of the component *)

Section Properties.

Variable resize : Tensor -> nat * nat -> Tensor.

Lemma modelUnavailable_step s e :
  modelUnavailable s -> isModelFetched e = false ->
  modelUnavailable (step resize s e).
Proof.
  intros Hs He. unfold step, after.
  destruct e as [fetched|reply| |id frame|file]; try discriminate; unfold dispatch.
  - destruct Hs as (Hm & Hl & Hv & Hrest).
    destruct reply as [stream|error];
      [rewrite (startWebcam_unmounted _ _ Hv)|rewrite startWebcam_rejected];
      destruct s; unfold modelUnavailable, render, modelReady in *; cbn in *;
      break; cbn; auto 10.
  - rewrite stopWebcam_effect.
    destruct s; unfold modelUnavailable, render, modelReady, clearedIntervals in *;
      cbn in *; break; cbn.
    repeat split; auto.
    match goal with |- context [match ?r with _ => _ end] => destruct r as [id|] end;
      [destruct (id =? 0)|]; reflexivity.
  - destruct s; unfold modelUnavailable, render, modelReady, bind, read in *;
      cbn in *; break; cbn; auto 10.
  - unfold handleImageUpload.
    destruct file as [[url [img|]]|];
      destruct s; unfold modelUnavailable, render, modelReady in *;
      cbn in *; break; cbn; auto 10.
Qed.

Lemma modelUnavailable_run events : forall s,
  modelUnavailable s ->
  forallb (fun e => negb (isModelFetched e)) events = true ->
  modelUnavailable (run resize s events).
Proof.
  induction events as [|e rest IH]; intros s Hs Hev; simpl in *; auto.
  apply andb_prop in Hev as [He Hrest]. apply negb_true_iff in He.
  apply IH; auto. apply modelUnavailable_step; auto.
Qed.

Lemma startsOnlyWhen_always events : forall s,
  startsOnlyWhen resize (fun _ => true) s events.
Proof.
  induction events as [|e rest IH]; intro s; simpl; auto.
  split; auto. destruct e; auto.
Qed.

Lemma settled_run events : settled (run resize initial events).
Proof.
  apply (run_preserves resize (fun _ => true) settled).
  - intros s e Hs _. apply settled_step; exact Hs.
  - unfold settled, initial; cbn. repeat split; try lia; discriminate.
  - apply startsOnlyWhen_always.
Qed.


Lemma item_of_nat {A : Type} (xs : list A) (k : nat) : item xs (Z.of_nat k) = nth_error xs k.
Proof.
  unfold item. destruct (Z.of_nat k <? 0) eqn:E; [apply Z.ltb_lt in E; lia|].
  now rewrite Nat2Z.id.
Qed.

Lemma emitted_prediction loaded img input output (qs : list Q) s :
  preprocess resize img = Normal input ->
  predict loaded input = Normal output ->
  values output = map Fin qs ->
  qs <> [] ->
  exists i q,
    nth_error qs i = Some q /\
    (forall j qj, nth_error qs j = Some qj -> (qj <= q)%Q) /\
    (forall j qj, (j < i)%nat -> nth_error qs j = Some qj -> (qj < q)%Q) /\
    prediction (after (predictImage resize (Some loaded) img) s) =
    Some {| fruit := nth_error FRUIT_CLASSES i; confidence := Fin (q * 100) |}.
Proof.
  intros Hpre Hfwd Hval Hne.
  destruct (first_maximum qs Hne) as (i & q & Hidx & Hnth & Hmax & Hfirst).
  exists i, q. repeat split; auto.
  unfold after. rewrite (predictImage_when_forward_pass_returns resize _ _ _ _ _ Hpre Hfwd).
  cbn. rewrite Hval, Hidx, !item_of_nat, (map_nth_error Fin _ _ Hnth). reflexivity.
Qed.

(** X1. No handler lets an error escape: whatever the event and the
    component, the handler it runs completes normally. *)
Lemma dispatch_completes e s : outcome_of (dispatch resize e) s = Normal tt.
Proof.
  unfold outcome_of. destruct e as [fetched|reply| |id frame|file].
  - destruct fetched; reflexivity.
  - destruct reply as [stream|error]; [|reflexivity].
    destruct (videoRef s) as [element|] eqn:Hv; unfold dispatch.
    + now rewrite (startWebcam_granted _ _ _ Hv).
    + now rewrite (startWebcam_unmounted _ _ Hv).
  - unfold dispatch. now rewrite stopWebcam_effect.
  - destruct (dispatch_passive resize (IntervalTick id frame) s I)
      as (p & ip & c & n & f & ->). reflexivity.
  - destruct (dispatch_passive resize (ImageUpload file) s I)
      as (p & ip & c & n & f & ->). reflexivity.
Qed.

(** C1. When the forward pass returns one finite probability per class,
    [predictImage] emits the class at the first index holding the
    largest probability: no probability is larger, every earlier one is
    strictly smaller, and the confidence is that probability times 100.
    For the vector 0.1, 0.7, 0.2 it emits the second class of the label
    list, and the confidence is displayed as 70.00. *)
Theorem predictImage_reports_first_maximum
    loaded img input output (qs : list Q) s :
  preprocess resize img = Normal input ->
  predict loaded input = Normal output ->
  values output = map Fin qs ->
  List.length qs = List.length FRUIT_CLASSES ->
  let s' := after (predictImage resize (Some loaded) img) s in
  (exists i q label,
      nth_error qs i = Some q /\
      nth_error FRUIT_CLASSES i = Some label /\
      (forall j qj, nth_error qs j = Some qj -> (qj <= q)%Q) /\
      (forall j qj, (j < i)%nat -> nth_error qs j = Some qj -> (qj < q)%Q) /\
      prediction s' = Some {| fruit := Some label; confidence := Fin (q * 100) |}) /\
  (qs = [1 # 10; 7 # 10; 2 # 10]%Q ->
   exists p,
     prediction s' = Some p /\
     fruit p = nth_error FRUIT_CLASSES 1 /\
     toFixed2 (confidence p) = Some "70.00").
Proof.
  intros Hpre Hfwd Hval Hlen s'. subst s'. split.
  - assert (qs <> []) as Hne by (intro; subst; discriminate).
    destruct (emitted_prediction _ _ _ _ _ s Hpre Hfwd Hval Hne)
      as (i & q & Hnth & Hmax & Hfirst & Hp).
    assert (i < List.length FRUIT_CLASSES)%nat as Hi.
    { rewrite <- Hlen. apply nth_error_Some. congruence. }
    destruct (nth_error FRUIT_CLASSES i) as [label|] eqn:Hlabel.
    + exists i, q, label. repeat split; auto.
    + apply nth_error_None in Hlabel. lia.
  - intros ->. unfold after.
    rewrite (predictImage_when_forward_pass_returns resize _ _ _ _ _ Hpre Hfwd). cbn. rewrite Hval.
    eexists. split; [reflexivity|]. split; reflexivity.
Qed.

(** C8. When the forward pass returns a non-empty vector of at most as
    many probabilities as there are classes, each between 0 and 1, the
    emitted prediction carries one of the names of [FRUIT_CLASSES] and a
    confidence between 0 and 100. *)
Theorem predictImage_prediction_well_formed
    loaded img input output (qs : list Q) s :
  preprocess resize img = Normal input ->
  predict loaded input = Normal output ->
  values output = map Fin qs ->
  qs <> [] ->
  (List.length qs <= List.length FRUIT_CLASSES)%nat ->
  Forall (fun q => 0 <= q <= 1)%Q qs ->
  exists label c,
    prediction (after (predictImage resize (Some loaded) img) s) =
    Some {| fruit := Some label; confidence := Fin c |} /\
    In label FRUIT_CLASSES /\ (0 <= c <= 100)%Q.
Proof.
  intros Hpre Hfwd Hval Hne Hlen Hall.
  destruct (emitted_prediction _ _ _ _ _ s Hpre Hfwd Hval Hne)
    as (i & q & Hnth & _ & _ & Hp).
  assert (i < List.length FRUIT_CLASSES)%nat as Hi.
  { eapply Nat.lt_le_trans; [|exact Hlen]. apply nth_error_Some. congruence. }
  destruct (nth_error FRUIT_CLASSES i) as [label|] eqn:Hlabel.
  - exists label, (q * 100)%Q. repeat split; auto.
    + eapply nth_error_In; eauto.
    + rewrite Forall_forall in Hall. pose proof (Hall q (nth_error_In _ _ Hnth)). lra.
    + rewrite Forall_forall in Hall. pose proof (Hall q (nth_error_In _ _ Hnth)). lra.
  - apply nth_error_None in Hlabel. lia.
Qed.

(** C9. When the forward pass throws, [predictImage] still completes
    normally: the error is written to the console, the current
    prediction is left as it was, nothing is alerted, and the model,
    the webcam flag and the sampling timer stay as they were, so the
    next tick samples again. *)
Theorem predictImage_forward_failure_is_contained loaded img input error s :
  preprocess resize img = Normal input ->
  predict loaded input = Throw error ->
  let s' := after (predictImage resize (Some loaded) img) s in
  outcome_of (predictImage resize (Some loaded) img) s = Normal tt /\
  console s' = (console s ++ [("Error en la predicción: " ++ error)%string])%list /\
  prediction s' = prediction s /\
  alerts s' = alerts s /\
  model s' = model s /\
  webcamActive s' = webcamActive s /\
  intervalRef s' = intervalRef s /\
  intervals s' = intervals s.
Proof.
  intros Hpre Hfwd s'. subst s'. unfold after, outcome_of.
  rewrite (predictImage_when_forward_pass_throws resize _ _ _ _ _ Hpre Hfwd). cbn.
  repeat split; reflexivity.
Qed.

(** C10. Whatever the model and the image are, a call of [predictImage]
    leaves the model handle, the webcam flag, the timer handle and the
    preview image as they were, together with the loading flag, the
    video element, the installed timers, the live tracks and the
    alerts. *)
Theorem predictImage_changes_prediction_only m img s :
  let s' := after (predictImage resize m img) s in
  model s' = model s /\
  webcamActive s' = webcamActive s /\
  intervalRef s' = intervalRef s /\
  imagePreview s' = imagePreview s /\
  isModelLoading s' = isModelLoading s /\
  videoRef s' = videoRef s /\
  intervals s' = intervals s /\
  liveTracks s' = liveTracks s /\
  alerts s' = alerts s.
Proof.
  unfold after.
  destruct (predictImage_effect resize m img s) as (p & c & n & f & ->).
  cbn. repeat split; reflexivity.
Qed.


(** C2. On an element carrying a full grid of 8-bit samples, and with a
    resize that meets [resizeContract], [tf.browser.fromPixels] gives the
    tensor of the element's own height and width whose sample at a
    pixel and colour channel is the element's sample there, and
    [preprocessImage] returns a tensor of shape 1 x 128 x 128 x 3, with
    that many values.  Each value is the corresponding value of that
    pixel tensor resized to 128 x 128, which lies between 0 and 255,
    divided by 255; so every value lies between 0 and 1.  The returned
    tensor is the one tensor that the call leaves allocated. *)
Theorem preprocessImage_fixed_size_unit_range img s :
  resizeContract resize ->
  validImage img ->
  exists pixels tensor,
    fromPixels img = Normal pixels /\
    shape pixels = [sourceHeight img; sourceWidth img; 3]%nat /\
    (forall row col ch,
        (row < sourceHeight img)%nat -> (col < sourceWidth img)%nat -> (ch < 3)%nat ->
        sampleAt pixels (sourceWidth img) 3 row col ch =
        Fin (inject_Z (nth (4 * (row * sourceWidth img + col) + ch) (rgba img) 0))) /\
    preprocessImage resize img s =
      (Normal tensor, with_numTensors (S (numTensors s)) s) /\
    shape tensor = [1; IMAGE_SIZE; IMAGE_SIZE; 3]%nat /\
    IMAGE_SIZE = 128%nat /\
    List.length (values tensor) = (1 * IMAGE_SIZE * IMAGE_SIZE * 3)%nat /\
    Forall2 (fun resized scaled =>
               exists q, resized = Fin q /\ (0 <= q <= 255)%Q /\
                         scaled = Fin (q / 255))
            (values (resize pixels (IMAGE_SIZE, IMAGE_SIZE))) (values tensor) /\
    Forall (within 0 1) (values tensor).
Proof.
  intros Hresize (Hh & Hw & Hlen & Hbytes).
  unfold preprocessImage, preprocess, fromPixels.
  destruct ((sourceHeight img =? 0) || (sourceWidth img =? 0))%nat eqn:Hempty.
  { apply orb_prop in Hempty as [E|E]; apply Nat.eqb_eq in E; lia. }
  set (pixels := {| shape := [sourceHeight img; sourceWidth img; 3%nat];
                    values := map (fun z => Fin (inject_Z z)) (rgb_channels (rgba img)) |}).
  assert (List.length (values pixels) = (sourceHeight img * sourceWidth img * 3)%nat) as Hfull.
  { cbn. rewrite length_map, (rgb_channels_length _ _ Hlen). lia. }
  assert (Forall (within 0 255) (values pixels)) as Hrange.
  { cbn. apply Forall_map.
    eapply Forall_impl; [|exact (rgb_channels_Forall _ _ _ Hlen Hbytes)].
    intros z Hz. exists (inject_Z z). split; [reflexivity|].
    change 0%Q with (inject_Z 0). change 255%Q with (inject_Z 255).
    rewrite <- !Zle_Qle. exact Hz. }
  destruct (Hresize pixels _ _ _ (IMAGE_SIZE, IMAGE_SIZE) eq_refl Hh Hw Hfull)
    as (Hshape & Hcount & Hkeep).
  specialize (Hkeep _ _ Hrange).
  exists pixels, (expandDims 0 (div (resize pixels (IMAGE_SIZE, IMAGE_SIZE)) (Fin 255))).
  split; [reflexivity|]. split; [reflexivity|]. split.
  { intros row col ch Hrow Hcol Hch. unfold sampleAt.
    assert (row * sourceWidth img + col + 1 <= sourceHeight img * sourceWidth img)%nat
      as Hpixel by nia.
    rewrite (nth_indep _ NaN (Fin (inject_Z 0))) by lia.
    cbn [values pixels]. rewrite (map_nth (fun z => Fin (inject_Z z))).
    rewrite (Nat.mul_comm _ 3). rewrite rgb_channels_nth by lia. reflexivity. }
  split; [reflexivity|]. split; [cbn; rewrite Hshape; reflexivity|].
  split; [reflexivity|].
  split; [cbn [values expandDims div]; rewrite length_map, Hcount; cbn [fst snd]; lia|].
  split.
  - cbn. apply Forall2_map_right. eapply Forall_impl; [|exact Hkeep].
    intros x (q & -> & Hq). exists q. repeat split; tauto.
  - cbn. apply Forall_map. eapply Forall_impl; [|exact Hkeep].
    intros x (q & -> & Hq). exists (q / 255)%Q. split; [reflexivity|].
    unfold Qdiv. change (/ 255)%Q with (1 # 255)%Q. lra.
Qed.


(** C5. Without a model [predictImage] returns at once and changes
    nothing.  After a failed load the user has been alerted, and whatever
    handlers are called afterwards, the model stays absent, the loading
    flag is off, no forward pass has been made, no prediction is shown,
    and [predictImage] is still a no-op. *)
Theorem absent_model_disables_inference error events img :
  forallb (fun e => negb (isModelFetched e)) events = true ->
  let failed := step resize initial (ModelFetched (Throw error)) in
  let s := run resize failed events in
  (forall any, predictImage resize None img any = (Normal tt, any)) /\
  alerts failed =
    ["Error al cargar el modelo. Verifica que los archivos estén en /public/model/"] /\
  model s = None /\
  isModelLoading s = false /\
  forwardPasses s = 0%nat /\
  prediction s = None /\
  predictImage resize (model s) img s = (Normal tt, s).
Proof.
  intros Hev failed s.
  assert (modelUnavailable s) as (Hm & Hl & _ & _ & Hf & Hp).
  { apply modelUnavailable_run; [|exact Hev].
    unfold modelUnavailable. cbn. auto 10. }
  repeat split; auto.
  rewrite Hm. reflexivity.
Qed.

(** C6, as amended. In every component reached from the initial one, a
    call of [stopWebcam] while the webcam flag is off completes normally
    and changes nothing but the current prediction, which it clears. *)
Theorem stopWebcam_inactive_only_clears_prediction events :
  let s := run resize initial events in
  webcamActive s = false ->
  stopWebcam s = (Normal tt, with_prediction None s).
Proof.
  intros s Hoff.
  destruct (settled_run events) as (_ & _ & Hidle). fold s in Hidle.
  destruct (Hidle Hoff) as [Href Hsrc].
  rewrite stopWebcam_effect.
  unfold stoppedVideo, stoppedTracks, clearedRef, clearedIntervals.
  rewrite Href.
  destruct (videoRef s) as [element|] eqn:Hv.
  - rewrite (Hsrc element eq_refl).
    destruct s; cbn in *; subst; reflexivity.
  - destruct s; cbn in *; subst; reflexivity.
Qed.

End Properties.

(** ** Concrete runs *)

Lemma smallImage_preprocessed : preprocess bilinear smallImage = Normal smallInput.
Proof. reflexivity. Qed.

Lemma smallImage_valid : validImage smallImage.
Proof.
  unfold validImage, smallImage; cbn. repeat split; try lia.
  repeat (apply Forall_cons; [lia|]). apply Forall_nil.
Qed.

Lemma fixedVector_probabilities : Forall (fun q => 0 <= q <= 1)%Q fixedVector.
Proof.
  unfold fixedVector.
  repeat (apply Forall_cons; [split; unfold Qle; cbn; lia|]). apply Forall_nil.
Qed.

(** C3. With a loaded model whose forward pass throws, a call of
    [predictImage] completes normally and leaves one more tensor
    allocated than before: the preprocessed input is never disposed. *)
Theorem predictImage_forward_failure_leaks_input :
  let s := step bilinear initial (ModelFetched (Normal brokenModel)) in
  let s' := after (predictImage bilinear (model s) smallImage) s in
  model s = Some brokenModel /\
  outcome_of (predictImage bilinear (model s) smallImage) s = Normal tt /\
  forwardPasses s' = 1%nat /\
  numTensors s = 0%nat /\
  numTensors s' = 1%nat.
Proof. cbn. repeat split; reflexivity. Qed.

(** C6, counterexample. After an upload the webcam flag is off and a
    prediction is shown; [stopWebcam] clears it, so the component is
    not left as it was. *)
Lemma stopWebcam_while_inactive_clears_prediction :
  let s := step bilinear readyToClassify upload in
  webcamActive s = false /\
  prediction s <> None /\
  prediction (after stopWebcam s) = None /\
  after stopWebcam s <> s.
Proof.
  cbv zeta. split; [reflexivity|]. split; [discriminate|]. split; [reflexivity|].
  intro H. apply (f_equal prediction) in H. discriminate H.
Qed.

(** ** Witnesses *)

Lemma predictImage_reports_first_maximum_witness :
  exists p,
    prediction (after (predictImage bilinear (Some stubModel) smallImage) initial) = Some p /\
    fruit p = Some "Plátano" /\
    toFixed2 (confidence p) = Some "70.00".
Proof.
  destruct (predictImage_reports_first_maximum bilinear stubModel smallImage
              smallInput _ fixedVector initial
              smallImage_preprocessed eq_refl eq_refl eq_refl) as [_ Hfixed].
  exact (Hfixed eq_refl).
Defined.

Lemma predictImage_prediction_well_formed_witness :
  exists label c,
    prediction (after (predictImage bilinear (Some stubModel) smallImage) initial) =
    Some {| fruit := Some label; confidence := Fin c |} /\
    In label FRUIT_CLASSES /\ (0 <= c <= 100)%Q.
Proof.
  apply (predictImage_prediction_well_formed bilinear stubModel smallImage
           smallInput _ fixedVector initial
           smallImage_preprocessed eq_refl eq_refl).
  - discriminate.
  - cbn. lia.
  - exact fixedVector_probabilities.
Defined.

Lemma preprocessImage_fixed_size_unit_range_witness :
  exists pixels tensor,
    fromPixels smallImage = Normal pixels /\
    shape pixels = [2; 2; 3]%nat /\
    (forall row col ch,
        (row < 2)%nat -> (col < 2)%nat -> (ch < 3)%nat ->
        sampleAt pixels 2 3 row col ch =
        Fin (inject_Z (nth (4 * (row * 2 + col) + ch) (rgba smallImage) 0))) /\
    preprocessImage bilinear smallImage initial =
      (Normal tensor, with_numTensors 1 initial) /\
    shape tensor = [1; 128; 128; 3]%nat /\
    IMAGE_SIZE = 128%nat /\
    List.length (values tensor) = (1 * 128 * 128 * 3)%nat /\
    Forall2 (fun resized scaled =>
               exists q, resized = Fin q /\ (0 <= q <= 255)%Q /\
                         scaled = Fin (q / 255))
            (values (bilinear pixels (128, 128)%nat)) (values tensor) /\
    Forall (within 0 1) (values tensor).
Proof.
  exact (preprocessImage_fixed_size_unit_range bilinear smallImage initial
           bilinear_contract smallImage_valid).
Defined.

Lemma absent_model_disables_inference_witness :
  let failed := step bilinear initial (ModelFetched (Throw "Failed to fetch")) in
  let s := run bilinear failed afterFailure in
  alerts failed =
    ["Error al cargar el modelo. Verifica que los archivos estén en /public/model/"] /\
  model s = None /\
  isModelLoading s = false /\
  forwardPasses s = 0%nat /\
  prediction s = None /\
  predictImage bilinear (model s) smallImage s = (Normal tt, s).
Proof.
  exact (proj2 (absent_model_disables_inference bilinear "Failed to fetch"
                  afterFailure smallImage eq_refl)).
Defined.

Lemma stopWebcam_inactive_only_clears_prediction_witness :
  let s := run bilinear initial idle in
  prediction s <> None /\
  stopWebcam s = (Normal tt, with_prediction None s).
Proof.
  split.
  - lazy. discriminate.
  - apply (stopWebcam_inactive_only_clears_prediction bilinear idle). reflexivity.
Defined.

Lemma predictImage_forward_failure_is_contained_witness :
  let s' := after (predictImage bilinear (Some brokenModel) smallImage) initial in
  outcome_of (predictImage bilinear (Some brokenModel) smallImage) initial = Normal tt /\
  console s' = (console initial ++ ["Error en la predicción: forward pass failed"])%list /\
  prediction s' = prediction initial /\
  alerts s' = alerts initial /\
  model s' = model initial /\
  webcamActive s' = webcamActive initial /\
  intervalRef s' = intervalRef initial /\
  intervals s' = intervals initial.
Proof.
  exact (predictImage_forward_failure_is_contained bilinear brokenModel smallImage
           smallInput "forward pass failed" initial smallImage_preprocessed eq_refl).
Defined.

(** ** The displayed confidence under binary rounding *)

(** The second probability of the example, as the typed array stores
    it, times 100 in binary64 is a little under 70 and is still
    displayed as 70.00. *)
Remark stored_probability_displayed :
  toFixed2 (number_of_float (storedSevenTenths * 100)%float) = Some "70.00" /\
  number_ltb (number_of_float (storedSevenTenths * 100)%float) (Fin 70) = true.
Proof. split; vm_compute; reflexivity. Qed.

(** ** Further properties of the handlers *)

Section Further.

Variable resize : Tensor -> nat * nat -> Tensor.

Lemma predictImage_emits loaded img input output s :
  preprocess resize img = Normal input ->
  predict loaded input = Normal output ->
  predictImage resize (Some loaded) img s =
  (Normal tt,
   with_forwardPasses (S (forwardPasses s))
     (with_prediction (Some (emitted (values output))) s)).
Proof.
  intros Hpre Hfwd.
  now rewrite (predictImage_when_forward_pass_returns resize _ _ _ _ _ Hpre Hfwd).
Qed.

(** X2. A call of [predictImage] leaves one more tensor allocated
    exactly when the model is present, preprocessing succeeds and the
    forward pass throws; otherwise the count is as before.  It makes one
    forward pass exactly when the model is present and preprocessing
    succeeds. *)
Theorem predictImage_tensor_balance m img s :
  let s' := after (predictImage resize m img) s in
  numTensors s' =
    match m, preprocess resize img with
    | Some loaded, Normal input =>
        match predict loaded input with
        | Normal _ => numTensors s
        | Throw _ => S (numTensors s)
        end
    | _, _ => numTensors s
    end /\
  forwardPasses s' =
    match m, preprocess resize img with
    | Some _, Normal _ => S (forwardPasses s)
    | _, _ => forwardPasses s
    end.
Proof.
  unfold after. destruct m as [loaded|]; [|split; reflexivity].
  destruct (preprocess resize img) as [input|error] eqn:Hpre.
  - destruct (predict loaded input) as [output|error] eqn:Hfwd.
    + rewrite (predictImage_emits _ _ _ _ s Hpre Hfwd). split; reflexivity.
    + rewrite (predictImage_when_forward_pass_throws resize _ _ _ _ s Hpre Hfwd).
      split; reflexivity.
  - rewrite (predictImage_when_preprocess_throws resize _ _ _ s Hpre).
    split; reflexivity.
Qed.

(** X3. An upload of a decoded image always sets the preview to the new
    image.  The prediction becomes the one built from the new output
    when the forward pass returns, whatever was shown before; without a
    model, or when preprocessing or the forward pass throws, the
    previous prediction stays beside the new preview. *)
Theorem handleImageUpload_outcome url img s :
  let s' := after (handleImageUpload resize (Some (mkFile url (Some img)))) s in
  imagePreview s' = Some url /\
  prediction s' =
    match model s, preprocess resize img with
    | Some loaded, Normal input =>
        match predict loaded input with
        | Normal output => Some (emitted (values output))
        | Throw _ => prediction s
        end
    | _, _ => prediction s
    end.
Proof.
  unfold after, handleImageUpload. cbn [decoded dataURL].
  unfold bind, setImagePreview, update, read. cbn [model with_imagePreview].
  destruct (model s) as [loaded|]; [|split; reflexivity].
  destruct (preprocess resize img) as [input|error] eqn:Hpre.
  - destruct (predict loaded input) as [output|error] eqn:Hfwd.
    + rewrite (predictImage_emits _ _ _ _ _ Hpre Hfwd). split; reflexivity.
    + rewrite (predictImage_when_forward_pass_throws resize _ _ _ _ _ Hpre Hfwd).
      split; reflexivity.
  - rewrite (predictImage_when_preprocess_throws resize _ _ _ _ Hpre).
    split; reflexivity.
Qed.

(** X4. Neither a timer tick nor an upload changes the webcam flag, the
    timer handle, the installed timers, the live tracks, the video
    element, the model or the alerts; a tick also leaves the preview. *)
Theorem upload_and_tick_leave_webcam_alone :
  (forall id frame s,
      let s' := after (dispatch resize (IntervalTick id frame)) s in
      webcamActive s' = webcamActive s /\ intervalRef s' = intervalRef s /\
      intervals s' = intervals s /\ liveTracks s' = liveTracks s /\
      videoRef s' = videoRef s /\ model s' = model s /\ alerts s' = alerts s /\
      imagePreview s' = imagePreview s) /\
  (forall file s,
      let s' := after (dispatch resize (ImageUpload file)) s in
      webcamActive s' = webcamActive s /\ intervalRef s' = intervalRef s /\
      intervals s' = intervals s /\ liveTracks s' = liveTracks s /\
      videoRef s' = videoRef s /\ model s' = model s /\ alerts s' = alerts s).
Proof.
  split.
  - intros id frame s. unfold after, dispatch, bind, read.
    destruct (find (fun t => handle t =? id) (intervals s)) as [t|];
      [|cbn; repeat split; reflexivity].
    unfold sample, bind, read.
    destruct (videoRef s) as [element|] eqn:Hv, (closure_model t) as [loaded|];
      try (cbn; rewrite ?Hv; repeat split; reflexivity).
    destruct (predictImage_effect resize (Some loaded) frame s)
      as (p & c & n & f & ->).
    cbn. rewrite ?Hv. repeat split; reflexivity.
  - intros file s. unfold after.
    destruct (dispatch_passive resize (ImageUpload file) s I)
      as (p & ip & c & n & f & ->).
    cbn. repeat split; reflexivity.
Qed.

(** X5. [stopWebcam] is idempotent: in any component, a second call
    completes normally and changes nothing more. *)
Theorem stopWebcam_idempotent s :
  stopWebcam (after stopWebcam s) = (Normal tt, after stopWebcam s).
Proof.
  unfold after. rewrite (stopWebcam_effect s). cbn [snd].
  rewrite stopWebcam_effect.
  unfold stoppedVideo, stoppedTracks, clearedRef, clearedIntervals. cbn.
  destruct (videoRef s) as [[[stream|]]|]; cbn;
    destruct (intervalRef s) as [id|]; cbn; try reflexivity;
    destruct (id =? 0) eqn:Hz; cbn; rewrite ?Hz; reflexivity.
Qed.

(** X8. When the camera request is rejected, [startWebcam] completes
    normally, alerts the user and logs the error once, and leaves the
    webcam flag, the timers, the timer handle, the tracks, the video
    element and the prediction as they were. *)
Theorem startWebcam_denied error s :
  let s' := after (startWebcam (Throw error)) s in
  outcome_of (startWebcam (Throw error)) s = Normal tt /\
  alerts s' =
    (alerts s ++ ["No se pudo acceder a la cámara. Verifica los permisos."])%list /\
  console s' = (console s ++ [("Error al acceder a la webcam: " ++ error)%string])%list /\
  webcamActive s' = webcamActive s /\
  intervals s' = intervals s /\
  intervalRef s' = intervalRef s /\
  liveTracks s' = liveTracks s /\
  videoRef s' = videoRef s /\
  prediction s' = prediction s.
Proof. cbn. repeat split; reflexivity. Qed.

(** X9. When the grant arrives while no video element is mounted,
    [startWebcam] attaches the stream nowhere and starts nothing: its
    tracks are live, the webcam flag and the timers are as before, and
    a later [stopWebcam] does not stop these tracks. *)
Theorem startWebcam_without_video_drops_stream stream s :
  videoRef s = None ->
  let s1 := after (startWebcam (Normal stream)) s in
  liveTracks s1 = (liveTracks s ++ stream)%list /\
  webcamActive s1 = webcamActive s /\
  intervals s1 = intervals s /\
  intervalRef s1 = intervalRef s /\
  liveTracks (after stopWebcam s1) = (liveTracks s ++ stream)%list.
Proof.
  intros Hv s1. subst s1. unfold after.
  rewrite (startWebcam_unmounted _ _ Hv). cbn [snd].
  rewrite stopWebcam_effect. unfold stoppedTracks. cbn. rewrite Hv.
  repeat split; reflexivity.
Qed.

(** X10. After [loadModel] the loading flag is off, whatever the fetch
    gave.  On success the model is set, nothing is alerted, the video
    element is mounted and the start button is offered exactly when the
    webcam is off.  On failure the model is as before and the user is
    alerted; if there was no model, no video element is mounted and
    the start button is not offered. *)
Theorem loadModel_outcome fetched s :
  let s' := step resize s (ModelFetched fetched) in
  isModelLoading s' = false /\
  match fetched with
  | Normal loaded =>
      model s' = Some loaded /\ alerts s' = alerts s /\
      videoRef s' <> None /\ startOffered s' = negb (webcamActive s)
  | Throw error =>
      model s' = model s /\
      alerts s' =
        (alerts s ++
           ["Error al cargar el modelo. Verifica que los archivos estén en /public/model/"])%list /\
      (model s = None -> videoRef s' = None /\ startOffered s' = false)
  end.
Proof.
  unfold step, after, dispatch. destruct fetched as [loaded|error].
  - rewrite loadModel_loaded. unfold render, modelReady, startOffered, modelReady. cbn.
    destruct (videoRef s) as [element|] eqn:Hv; cbn; repeat split; auto; discriminate.
  - rewrite loadModel_failed. unfold render, startOffered, modelReady. cbn.
    destruct (model s) as [loaded|] eqn:Hm; cbn.
    + destruct (videoRef s); cbn; rewrite ?Hm; repeat split; auto; discriminate.
    + rewrite ?Hm. repeat split; auto.
Qed.


Lemma Math_max_of_NaN (xs : list number) : In NaN xs -> Math_max xs = NaN.
Proof.
  intro Hin. unfold Math_max.
  assert (existsb isNaN xs = true) as ->; [|reflexivity].
  apply existsb_exists. exists NaN. split; [exact Hin|reflexivity].
Qed.

Lemma number_eqb_NaN (x : number) : number_eqb x NaN = false.
Proof. destruct x; reflexivity. Qed.

Lemma indexOf_from_NaN (xs : list number) : forall i, indexOf_from i xs NaN = -1.
Proof.
  induction xs as [|x rest IH]; intro i; simpl; [reflexivity|].
  rewrite number_eqb_NaN. apply IH.
Qed.

Lemma emitted_without_maximum (probabilities : list number) :
  probabilities = [] \/ In NaN probabilities ->
  emitted probabilities = {| fruit := None; confidence := NaN |}.
Proof.
  intros [->|Hin]; [reflexivity|].
  unfold emitted, indexOf. rewrite (Math_max_of_NaN _ Hin), indexOf_from_NaN.
  reflexivity.
Qed.

(** X11. When the forward pass returns no probability at all, or a NaN
    among the probabilities, [predictImage] still emits a prediction:
    its label is undefined and its confidence is NaN. *)
Theorem predictImage_on_empty_or_NaN_output loaded img input output s :
  preprocess resize img = Normal input ->
  predict loaded input = Normal output ->
  values output = [] \/ In NaN (values output) ->
  prediction (after (predictImage resize (Some loaded) img) s) =
  Some {| fruit := None; confidence := NaN |}.
Proof.
  intros Hpre Hfwd Hbad. unfold after.
  rewrite (predictImage_emits _ _ _ _ s Hpre Hfwd). cbn.
  now rewrite (emitted_without_maximum _ Hbad).
Qed.

(** X12. When the forward pass returns finite probabilities among which
    one lies strictly above every probability of the three classes, the
    emitted prediction has an undefined label; its confidence is at
    least that probability times 100. *)
Theorem predictImage_label_beyond_classes
    loaded img input output (qs : list Q) (k : nat) (q : Q) s :
  preprocess resize img = Normal input ->
  predict loaded input = Normal output ->
  values output = map Fin qs ->
  nth_error qs k = Some q ->
  (forall j qj, (j < List.length FRUIT_CLASSES)%nat ->
                nth_error qs j = Some qj -> (qj < q)%Q) ->
  exists c,
    prediction (after (predictImage resize (Some loaded) img) s) =
    Some {| fruit := None; confidence := Fin (c * 100) |} /\
    (q <= c)%Q.
Proof.
  intros Hpre Hfwd Hval Hk Hlow.
  assert (qs <> []) as Hne by (intro; subst; destruct k; discriminate).
  destruct (emitted_prediction resize _ _ _ _ _ s Hpre Hfwd Hval Hne)
    as (i & qi & Hi & Hmax & _ & Hp).
  exists qi. split; [|exact (Hmax _ _ Hk)].
  rewrite Hp. f_equal. f_equal.
  apply nth_error_None.
  destruct (Nat.lt_ge_cases i (List.length FRUIT_CLASSES)) as [Hlt|Hge]; [|exact Hge].
  exfalso. pose proof (Hlow _ _ Hlt Hi) as H1. pose proof (Hmax _ _ Hk) as H2.
  lra.
Qed.




Lemma render_keeps_timers s :
  intervals (render s) = intervals s /\
  intervalRef (render s) = intervalRef s /\
  nextHandle (render s) = nextHandle s.
Proof. destruct (render_videoRef s) as (v & -> & _). repeat split; reflexivity. Qed.

Lemma timers_step s e (t : Interval) :
  freshHandles s ->
  freshHandles (step resize s e) /\
  (In t (intervals s) -> intervalRef s <> Some (handle t) ->
   In t (intervals (step resize s e)) /\
   intervalRef (step resize s e) <> Some (handle t)).
Proof.
  intros [Hall Href]. unfold freshHandles, step, after.
  destruct (render_keeps_timers (snd (dispatch resize e s))) as (-> & -> & ->).
  destruct e as [fetched|reply| |id frame|file].
  - unfold dispatch. destruct fetched as [loaded|error];
      [rewrite loadModel_loaded|rewrite loadModel_failed]; cbn; auto.
  - unfold dispatch. destruct reply as [stream|error];
      [|rewrite startWebcam_rejected; cbn; auto].
    destruct (videoRef s) as [element|] eqn:Hv;
      [|rewrite (startWebcam_unmounted _ _ Hv); cbn; auto].
    rewrite (startWebcam_granted _ _ _ Hv). cbn. repeat split.
    + apply Forall_app. split.
      * eapply Forall_impl; [|exact Hall]. cbn. intros; lia.
      * constructor; [cbn; lia|constructor].
    + intros id [= <-]. lia.
    + apply in_or_app. left. assumption.
    + intros [= Heq]. rewrite Forall_forall in Hall.
      match goal with H : In t _ |- _ => pose proof (Hall _ H) end. cbn in *. lia.
  - unfold dispatch. rewrite stopWebcam_effect. cbn.
    unfold clearedIntervals, clearedRef.
    destruct (intervalRef s) as [id|] eqn:Hi; [destruct (id =? 0) eqn:Hz|]; auto.
    + repeat split; auto.
      * apply Forall_forall. intros x Hx. apply filter_In in Hx as [Hx _].
        rewrite Forall_forall in Hall. exact (Hall _ Hx).
      * discriminate.
      * apply filter_In. split; [assumption|].
        apply negb_true_iff. apply Z.eqb_neq. congruence.
      * discriminate.
  - destruct (dispatch_passive resize (IntervalTick id frame) s I)
      as (p & ip & c & n & f & ->). cbn. auto.
  - destruct (dispatch_passive resize (ImageUpload file) s I)
      as (p & ip & c & n & f & ->). cbn. auto.
Qed.

Lemma freshHandles_run events : forall s,
  freshHandles s -> freshHandles (run resize s events).
Proof.
  induction events as [|e rest IH]; intros s Hs; simpl; [exact Hs|].
  apply IH. exact (proj1 (timers_step s e (mkInterval 0 None) Hs)).
Qed.

(** X14. A timer whose handle [intervalRef] no longer holds is never
    cleared: once installed in a component reached from the initial
    one, it is still installed after any further events. *)
Theorem overwritten_timer_is_never_cleared events0 events (t : Interval) :
  let s0 := run resize initial events0 in
  In t (intervals s0) ->
  intervalRef s0 <> Some (handle t) ->
  In t (intervals (run resize s0 events)).
Proof.
  intros s0 Hin Hother.
  assert (freshHandles s0) as Hfresh.
  { apply freshHandles_run. split; [constructor|discriminate]. }
  clearbody s0. revert s0 Hin Hother Hfresh.
  induction events as [|e rest IH]; intros s Hin Hother Hfresh; simpl; [exact Hin|].
  destruct (timers_step s e t Hfresh) as [Hfresh' Hkeep].
  destruct (Hkeep Hin Hother) as [Hin' Hother'].
  apply IH; assumption.
Qed.


Lemma predictImage_reliable m img s :
  (forall loaded, m = Some loaded -> reliable loaded) ->
  numTensors (after (predictImage resize m img) s) = numTensors s.
Proof.
  intro Hrel. unfold after. destruct m as [loaded|]; [|reflexivity].
  destruct (preprocess resize img) as [input|error] eqn:Hpre.
  - destruct (Hrel loaded eq_refl input) as [output Hfwd].
    now rewrite (predictImage_emits _ _ _ _ s Hpre Hfwd).
  - now rewrite (predictImage_when_preprocess_throws resize _ _ _ s Hpre).
Qed.

Lemma leakFree_step s e :
  leakFree s -> bringsReliableModel e -> leakFree (step resize s e).
Proof.
  intros (Hzero & Hmodel & Htimers) He. unfold leakFree, step.
  destruct (render_videoRef (after (dispatch resize e) s)) as (v & -> & _).
  cbn [numTensors model intervals with_videoRef]. unfold after.
  destruct e as [fetched|reply| |id frame|file].
  - unfold dispatch. destruct fetched as [loaded|error];
      [rewrite loadModel_loaded|rewrite loadModel_failed]; cbn; repeat split; auto.
    intros m [= <-]. exact He.
  - unfold dispatch. destruct reply as [stream|error];
      [|rewrite startWebcam_rejected; cbn; auto].
    destruct (videoRef s) as [element|] eqn:Hv;
      [|rewrite (startWebcam_unmounted _ _ Hv); cbn; auto].
    rewrite (startWebcam_granted _ _ _ Hv). cbn. repeat split; auto.
    apply Forall_app. split; [exact Htimers|]. constructor; [|constructor].
    cbn. exact Hmodel.
  - unfold dispatch. rewrite stopWebcam_effect. cbn. repeat split; auto.
    unfold clearedIntervals.
    destruct (intervalRef s) as [id|]; [destruct (id =? 0)|]; auto.
    apply Forall_forall. intros x Hx. apply filter_In in Hx as [Hx _].
    rewrite Forall_forall in Htimers. exact (Htimers _ Hx).
  - assert (numTensors (snd (dispatch resize (IntervalTick id frame) s)) = 0%nat) as Hn.
    { unfold dispatch, bind, read.
      destruct (find (fun t => handle t =? id) (intervals s)) as [t|] eqn:Hfind;
        [|exact Hzero].
      apply find_some in Hfind as [Hin _].
      rewrite Forall_forall in Htimers. specialize (Htimers _ Hin).
      unfold sample, bind, read.
      destruct (videoRef s), (closure_model t) as [loaded|] eqn:Hc; try exact Hzero.
      rewrite <- Hzero. apply (predictImage_reliable (Some loaded)).
      intros m [= <-]. apply Htimers. reflexivity. }
    destruct (dispatch_passive resize (IntervalTick id frame) s I)
      as (p & ip & c & n & f & E). rewrite E in *. cbn in *. auto.
  - assert (numTensors (snd (dispatch resize (ImageUpload file) s)) = 0%nat) as Hn.
    { unfold dispatch, handleImageUpload.
      destruct file as [[url [img|]]|]; try exact Hzero.
      cbn [decoded dataURL]. unfold bind, setImagePreview, update, read.
      cbn [model with_imagePreview].
      rewrite <- Hzero.
      apply (predictImage_reliable (model s) img (with_imagePreview (Some url) s)).
      exact Hmodel. }
    destruct (dispatch_passive resize (ImageUpload file) s I)
      as (p & ip & c & n & f & E). rewrite E in *. cbn in *. auto.
Qed.

(** X15. When every model that is loaded has a forward pass that never
    throws, no tensor is left allocated after any sequence of events
    from the initial component. *)
Theorem no_tensor_is_leaked_by_a_reliable_model events :
  Forall bringsReliableModel events ->
  numTensors (run resize initial events) = 0%nat.
Proof.
  intro Hev.
  assert (leakFree initial) as Hinit.
  { repeat split; [discriminate|constructor]. }
  revert Hinit. generalize initial as s.
  induction Hev as [|e rest He Hrest IH]; intros s Hs; simpl.
  - exact (proj1 Hs).
  - apply IH. apply leakFree_step; assumption.
Qed.

End Further.

(** ** Witnesses of the further properties *)

Lemma mockModel_reliable probabilities : reliable (mockModel probabilities).
Proof. intro input. eexists. reflexivity. Qed.

Lemma session_reliable : Forall bringsReliableModel session.
Proof.
  unfold session. constructor; [apply mockModel_reliable|].
  repeat (constructor; [exact I|]). constructor.
Qed.


Lemma wideVector_low (j : nat) (qj : Q) :
  (j < List.length FRUIT_CLASSES)%nat -> nth_error wideVector j = Some qj ->
  (qj < 7 # 10)%Q.
Proof.
  intros Hj Hnth. cbn in Hj.
  destruct j as [|[|[|j]]]; try lia; cbn in Hnth; injection Hnth as <-; reflexivity.
Qed.


Lemma startWebcam_without_video_drops_stream_witness :
  let s1 := after (startWebcam (Normal camera)) initial in
  liveTracks s1 = camera /\
  webcamActive s1 = false /\
  intervals s1 = [] /\
  intervalRef s1 = None /\
  liveTracks (after stopWebcam s1) = camera.
Proof.
  exact (startWebcam_without_video_drops_stream camera initial eq_refl).
Defined.

Lemma predictImage_on_empty_or_NaN_output_witness :
  prediction (after (predictImage bilinear (Some nanModel) smallImage) initial) =
  Some {| fruit := None; confidence := NaN |}.
Proof.
  apply (predictImage_on_empty_or_NaN_output bilinear nanModel smallImage
           smallInput _ initial smallImage_preprocessed eq_refl).
  right. right. left. reflexivity.
Defined.

Lemma predictImage_label_beyond_classes_witness :
  exists c,
    prediction (after (predictImage bilinear (Some wideModel) smallImage) initial) =
    Some {| fruit := None; confidence := Fin (c * 100) |} /\
    (7 # 10 <= c)%Q.
Proof.
  exact (predictImage_label_beyond_classes bilinear wideModel smallImage
           smallInput _ wideVector 3 (7 # 10)%Q initial
           smallImage_preprocessed eq_refl eq_refl eq_refl wideVector_low).
Defined.

Lemma overwritten_timer_is_never_cleared_witness :
  In (mkInterval 1 (Some stubModel))
     (intervals (run bilinear (run bilinear initial doubleStart) laterEvents)).
Proof.
  apply (overwritten_timer_is_never_cleared bilinear doubleStart laterEvents
           (mkInterval 1 (Some stubModel))).
  - lazy. left. reflexivity.
  - lazy. discriminate.
Defined.

Lemma no_tensor_is_leaked_by_a_reliable_model_witness :
  numTensors (run bilinear initial session) = 0%nat.
Proof.
  exact (no_tensor_is_leaked_by_a_reliable_model bilinear session session_reliable).
Defined.

Lemma loadModel_outcome_witness :
  let s' := step bilinear initial (ModelFetched (Throw "Failed to fetch")) in
  isModelLoading s' = false /\ videoRef s' = None /\ startOffered s' = false.
Proof.
  destruct (loadModel_outcome bilinear (Throw "Failed to fetch") initial)
    as (Hl & _ & _ & Hrest).
  destruct (Hrest eq_refl) as [Hv Ho]. auto.
Defined.

(** ** Sessions on the page: awaited camera requests and the teardown *)

Section Sessions.

Variable resize : Tensor -> nat * nat -> Tensor.

Lemma resumeStartWebcam_rejected captured error s :
  resumeStartWebcam captured (Throw error) s =
  (Normal tt,
   with_alerts
     (alerts s ++ ["No se pudo acceder a la cámara. Verifica los permisos."%string])
     (with_console
        (console s ++ [("Error al acceder a la webcam:" ++ " " ++ error)%string]) s)).
Proof. reflexivity. Qed.

Lemma resumeStartWebcam_unmounted captured stream s :
  videoRef s = None ->
  resumeStartWebcam captured (Normal stream) s =
  (Normal tt, with_liveTracks (liveTracks s ++ stream) s).
Proof.
  intro Hv. unfold resumeStartWebcam, try_catch, bind, getUserMedia, update, read, ret.
  simpl. rewrite Hv. reflexivity.
Qed.

Lemma resumeStartWebcam_granted captured stream element s :
  videoRef s = Some element ->
  resumeStartWebcam captured (Normal stream) s =
  (Normal tt,
   mkApp (model s) (isModelLoading s) true (prediction s) (imagePreview s)
         (Some (mkVideo (Some stream))) (Some (nextHandle s)) (console s) (alerts s)
         (intervals s ++ [mkInterval (nextHandle s) captured]) (nextHandle s + 1)
         (liveTracks s ++ stream) (numTensors s) (forwardPasses s)).
Proof.
  intro Hv. unfold resumeStartWebcam, try_catch, bind, getUserMedia, update, read, ret.
  simpl. rewrite Hv. reflexivity.
Qed.

(** A click answered at once is [startWebcam] itself. *)
Lemma startWebcam_resumes reply s :
  startWebcam reply s = resumeStartWebcam (model s) reply s.
Proof.
  destruct reply as [stream|error]; [|reflexivity].
  destruct (videoRef s) as [element|] eqn:Hv.
  - now rewrite (startWebcam_granted _ _ _ Hv), (resumeStartWebcam_granted _ _ _ _ Hv).
  - now rewrite (startWebcam_unmounted _ _ Hv), (resumeStartWebcam_unmounted _ _ _ Hv).
Qed.


(** So an event [StartWebcam] is a click on a page that awaits nothing,
    followed by its answer. *)
Lemma click_answered_at_once p reply :
  awaited p = [] ->
  perform resize (perform resize p StartClicked) (CameraAnswered reply) =
  perform resize p (Handled (StartWebcam reply)).
Proof.
  intro Hw. cbn [perform component awaited mounted]. rewrite Hw. cbn [app].
  unfold step, after. cbn [dispatch]. rewrite startWebcam_resumes. reflexivity.
Qed.

(** A granted answer on a mounted page, once rendered. *)
Lemma resumeStartWebcam_rendered captured stream element s :
  modelReady s = true -> videoRef s = Some element ->
  render (after (resumeStartWebcam captured (Normal stream)) s) =
  mkApp (model s) (isModelLoading s) true (prediction s) (imagePreview s)
        (Some (mkVideo (Some stream))) (Some (nextHandle s)) (console s) (alerts s)
        (intervals s ++ [mkInterval (nextHandle s) captured]) (nextHandle s + 1)
        (liveTracks s ++ stream) (numTensors s) (forwardPasses s).
Proof.
  intros Hready Hv. unfold after. rewrite (resumeStartWebcam_granted _ _ _ _ Hv).
  cbn [snd]. apply (render_mounted _ (mkVideo (Some stream))); [exact Hready|reflexivity].
Qed.

(** An answer to a request made while the start button is shown keeps
    the invariant of the sessions. *)
Lemma oneSession_answer captured reply s :
  oneSession s -> startOffered s = true ->
  oneSession (render (after (resumeStartWebcam captured reply) s)).
Proof.
  intros (Hnext & Hmount & Hcase) Hoffer.
  unfold startOffered in Hoffer. apply andb_prop in Hoffer as [Hready Hoff].
  apply negb_true_iff in Hoff. rewrite Hoff in Hcase.
  destruct Hcase as (Hi & Hr & Hl & Hsrc).
  destruct (videoRef s) as [element|] eqn:Hv; [|exfalso; apply Hmount; auto].
  unfold after. destruct reply as [stream|error].
  - rewrite (resumeStartWebcam_granted _ _ _ _ Hv). cbn [snd].
    erewrite render_mounted; [|exact Hready|reflexivity].
    unfold oneSession. cbn. rewrite Hi, Hl. cbn.
    split; [lia|]. split; [discriminate|]. split; [exact Hready|].
    eexists _, _. repeat split; try reflexivity. cbn. lia.
  - rewrite resumeStartWebcam_rejected. cbn [snd].
    erewrite render_mounted; [|exact Hready|exact Hv].
    unfold oneSession. cbn. rewrite Hoff, Hv. repeat split; auto; discriminate.
Qed.

(** A tick and an upload change neither the model nor what the page
    offers. *)
Lemma passive_keeps_offer e s :
  match e with IntervalTick _ _ | ImageUpload _ => True | _ => False end ->
  startOffered (step resize s e) = startOffered s /\
  model (step resize s e) = model s.
Proof.
  intro He. unfold step, after.
  destruct (dispatch_passive resize e s He) as (p & ip & c & n & f & ->). cbn [snd].
  destruct (render_videoRef
              (mkApp (model s) (isModelLoading s) (webcamActive s) p ip (videoRef s)
                     (intervalRef s) c (alerts s) (intervals s) (nextHandle s)
                     (liveTracks s) n f)) as (v & -> & _).
  split; reflexivity.
Qed.

Lemma patientPage_opened : patientPage opened.
Proof.
  unfold patientPage, opened, oneSession, initial, modelReady; cbn.
  repeat split; try lia; try discriminate.
Qed.

Lemma patientPage_perform p a :
  patientPage p -> offeredPatiently p a = true -> patientPage (perform resize p a).
Proof.
  intros (Hm & Hone & Hwait) Hok. unfold offeredPatiently in Hok.
  apply andb_prop in Hok as [Hoffered Hpatient]. unfold patientPage.
  destruct a as [e| |reply|]; cbn [perform]; [| | |discriminate].
  - rewrite Hm. cbn [component awaited mounted]. split; [reflexivity|].
    destruct (awaited p) as [|captured [|]] eqn:Hw; [|  |contradiction].
    + split; [|exact I]. apply oneSession_step; [exact Hone|].
      destruct e; try exact I. cbn in Hoffered.
      apply andb_prop in Hoffered as [_ Ho]. exact Ho.
    + destruct Hwait as [Ho Hcaptured].
      pose proof Ho as Ho'. unfold startOffered in Ho'.
      apply andb_prop in Ho' as [Hready Hoff]. apply negb_true_iff in Hoff.
      unfold modelReady in Hready. apply andb_prop in Hready as [Hload _].
      apply negb_true_iff in Hload.
      destruct e as [fetched|r| |id frame|file]; cbn in Hoffered, Hpatient.
      * congruence.
      * discriminate.
      * apply andb_prop in Hoffered as [_ Hon]. congruence.
      * split; [apply oneSession_step; auto|].
        destruct (passive_keeps_offer (IntervalTick id frame) (component p) I) as [-> ->].
        auto.
      * split; [apply oneSession_step; auto|].
        destruct (passive_keeps_offer (ImageUpload file) (component p) I) as [-> ->].
        auto.
  - cbn [component awaited mounted]. split; [exact Hm|]. split; [exact Hone|].
    cbn in Hoffered, Hpatient.
    destruct (awaited p); [|discriminate]. cbn.
    apply andb_prop in Hoffered as [_ Ho]. auto.
  - cbn in Hoffered.
    destruct (awaited p) as [|captured [|]] eqn:Hw; [discriminate| |contradiction].
    rewrite Hm. cbn [component awaited mounted]. split; [reflexivity|].
    split; [|exact I]. apply oneSession_answer; [assumption|apply Hwait].
Qed.

Lemma patientPage_performAll actions : forall p,
  patientPage p -> throughUI resize offeredPatiently p actions ->
  patientPage (performAll resize p actions).
Proof.
  induction actions as [|a rest IH]; intros p Hp Hui; simpl; [exact Hp|].
  destruct Hui as [Ha Hrest]. apply IH; [|exact Hrest].
  apply patientPage_perform; assumption.
Qed.

(** Sessions compose, and a patient session is a session. *)
Lemma throughUI_app allowed actions : forall p more,
  throughUI resize allowed p actions ->
  throughUI resize allowed (performAll resize p actions) more ->
  throughUI resize allowed p (actions ++ more).
Proof.
  induction actions as [|a rest IH]; intros p more Hfirst Hmore; [exact Hmore|].
  destruct Hfirst as [Ha Hrest]. split; [exact Ha|]. apply IH; assumption.
Qed.

Lemma throughUI_patient actions : forall p,
  throughUI resize offeredPatiently p actions -> throughUI resize offered p actions.
Proof.
  induction actions as [|a rest IH]; intros p Hui; [exact I|].
  destruct Hui as [Ha Hrest]. split; [|apply IH; exact Hrest].
  unfold offeredPatiently in Ha. apply andb_prop in Ha as [Ha _]. exact Ha.
Qed.

(** X6. In a session of a patient user (every action allowed by the
    page when it happens, the start button not clicked again while a
    camera request is awaited, the page mounted), the grant of the
    awaited request turns the webcam flag on, attaches the stream to
    the video element, makes its tracks the only live ones and installs
    exactly one timer, whose handle [intervalRef] holds and whose
    callback closes over the current model; the prediction is not
    touched. *)
Theorem startWebcam_enters_active actions captured stream :
  throughUI resize offeredPatiently opened actions ->
  let p := performAll resize opened actions in
  awaited p = [captured] ->
  let s := component p in
  let p' := perform resize p (CameraAnswered (Normal stream)) in
  let s' := component p' in
  offeredPatiently p (CameraAnswered (Normal stream)) = true /\
  captured = model s /\
  awaited p' = [] /\
  webcamActive s' = true /\
  videoRef s' = Some (mkVideo (Some stream)) /\
  liveTracks s' = stream /\
  intervals s' = [mkInterval (nextHandle s) captured] /\
  intervalRef s' = Some (nextHandle s) /\
  prediction s' = prediction s.
Proof.
  intros Hui p Hw s p' s'.
  destruct (patientPage_performAll actions opened patientPage_opened Hui)
    as (Hm & (Hnext & Hmount & Hcase) & Hwait).
  fold p in Hm, Hnext, Hmount, Hcase, Hwait. fold s in Hnext, Hmount, Hcase, Hwait.
  rewrite Hw in Hwait. destruct Hwait as [Hoffer Hcaptured].
  unfold startOffered in Hoffer. apply andb_prop in Hoffer as [Hready Hoff].
  apply negb_true_iff in Hoff. rewrite Hoff in Hcase.
  destruct Hcase as (Hi & Hr & Hl & Hsrc).
  destruct (videoRef s) as [element|] eqn:Hv; [|exfalso; apply Hmount; auto].
  split; [unfold offeredPatiently, offered; rewrite Hw; reflexivity|].
  split; [exact Hcaptured|].
  subst p' s'. cbn [perform]. rewrite Hw, Hm. cbn [component awaited].
  fold s. unfold after. rewrite (resumeStartWebcam_granted _ _ _ _ Hv). cbn [snd].
  erewrite render_mounted; [|exact Hready|reflexivity].
  cbn. rewrite Hi, Hl. repeat split; reflexivity.
Qed.

(** X13. In a session of a patient user the camera is held exactly
    while the webcam flag is on: then one timer is installed,
    [intervalRef] holds its handle and the live tracks are those of the
    stream on the video element; while the flag is off no timer is
    installed, [intervalRef] is null, no track is live and the video
    element shows no stream. *)
Theorem camera_held_exactly_while_active actions :
  throughUI resize offeredPatiently opened actions ->
  let s := component (performAll resize opened actions) in
  if webcamActive s
  then exists t stream,
         intervals s = [t] /\ intervalRef s = Some (handle t) /\
         videoRef s = Some (mkVideo (Some stream)) /\ liveTracks s = stream
  else intervals s = [] /\ intervalRef s = None /\ liveTracks s = [] /\
       forall element, videoRef s = Some element -> srcObject element = None.
Proof.
  intros Hui s.
  destruct (patientPage_performAll actions opened patientPage_opened Hui)
    as (_ & (_ & _ & Hcase) & _).
  fold s in Hcase. destruct (webcamActive s).
  - destruct Hcase as (_ & t & stream & Hi & Hr & _ & Hv & Hl).
    exists t, stream. auto.
  - exact Hcase.
Qed.

(** C4. The code does not keep the sampling timers to at most one.
    On any page that a patient user has reached and that shows the
    start button, two clicks on it before the camera answers, both
    granted, are allowed by the page; they leave the webcam on with two
    timers installed, of which [intervalRef] holds only the second.
    The stop button then clears the second timer and leaves the first
    one installed. *)
Theorem double_click_installs_two_timers actions first second :
  throughUI resize offeredPatiently opened actions ->
  let p := performAll resize opened actions in
  offeredPatiently p StartClicked = true ->
  let clicks := [StartClicked; StartClicked;
                 CameraAnswered (Normal first); CameraAnswered (Normal second)] in
  let s := component p in
  let p' := performAll resize p clicks in
  let s' := component p' in
  throughUI resize offered opened (actions ++ clicks) /\
  webcamActive s' = true /\
  intervals s' = [mkInterval (nextHandle s) (model s);
                  mkInterval (nextHandle s + 1) (model s)] /\
  intervalRef s' = Some (nextHandle s + 1) /\
  offered p' (Handled StopWebcam) = true /\
  let stopped := component (perform resize p' (Handled StopWebcam)) in
  webcamActive stopped = false /\
  intervalRef stopped = None /\
  intervals stopped = [mkInterval (nextHandle s) (model s)].
Proof.
  intros Hui p Hoffer clicks s p' s'.
  destruct (patientPage_performAll actions opened patientPage_opened Hui)
    as (Hm & (Hnext & Hmount & Hcase) & _).
  fold p in Hm, Hnext, Hmount, Hcase. fold s in Hnext, Hmount, Hcase.
  unfold offeredPatiently, offered in Hoffer. rewrite Hm in Hoffer. cbn [andb] in Hoffer.
  fold s in Hoffer.
  apply andb_prop in Hoffer as [Hstart Hw].
  destruct (awaited p) as [|] eqn:Hwait; [clear Hw|discriminate].
  pose proof Hstart as Hgate. unfold startOffered in Hgate.
  apply andb_prop in Hgate as [Hready Hoff].
  apply negb_true_iff in Hoff. rewrite Hoff in Hcase.
  destruct Hcase as (Hi & Hr & Hl & Hsrc).
  destruct (videoRef s) as [element|] eqn:Hv; [|exfalso; apply Hmount; auto].
  assert (p' = mkPage
            (mkApp (model s) (isModelLoading s) true (prediction s) (imagePreview s)
                   (Some (mkVideo (Some second))) (Some (nextHandle s + 1))
                   (console s) (alerts s)
                   [mkInterval (nextHandle s) (model s);
                    mkInterval (nextHandle s + 1) (model s)]
                   (nextHandle s + 1 + 1) (first ++ second)%list
                   (numTensors s) (forwardPasses s)) [] true) as Hp'.
  { subst p'. unfold clicks, performAll. cbn [fold_left perform].
    rewrite Hwait, Hm. cbn [component awaited mounted app]. fold s.
    rewrite (resumeStartWebcam_rendered (model s) first element s Hready Hv).
    erewrite resumeStartWebcam_rendered; [|exact Hready|reflexivity].
    cbn. rewrite Hi, Hl. reflexivity. }
  split.
  { apply throughUI_app; [apply throughUI_patient; exact Hui|]. fold p.
    unfold clicks. cbn [throughUI perform]. rewrite Hwait, Hm.
    cbn [component awaited mounted app]. fold s.
    unfold offered. cbn [component awaited mounted].
    change (component p) with s. rewrite Hm, Hstart.
    repeat split; reflexivity. }
  subst s'. rewrite Hp'. cbn [component].
  split; [reflexivity|]. split; [reflexivity|]. split; [reflexivity|].
  split; [unfold offered; cbn; unfold modelReady in *; cbn; rewrite Hready; reflexivity|].
  cbn [perform component mounted]. unfold step, after.
  rewrite stopWebcam_effect. cbn [snd].
  erewrite render_mounted; [|exact Hready|reflexivity].
  unfold clearedRef, clearedIntervals. cbn.
  replace (nextHandle s + 1 =? 0) with false by (symmetry; apply Z.eqb_neq; lia).
  cbn. rewrite Z.eqb_refl.
  replace (nextHandle s =? nextHandle s + 1) with false by (symmetry; apply Z.eqb_neq; lia).
  repeat split; reflexivity.
Qed.

End Sessions.

(** ** Concrete sessions on the page *)

Lemma patientSession_through_UI :
  throughUI bilinear offeredPatiently opened patientSession.
Proof. lazy. repeat split; reflexivity. Qed.

Lemma awaitingAnswer_through_UI :
  throughUI bilinear offeredPatiently opened awaitingAnswer.
Proof. lazy. repeat split; reflexivity. Qed.

Lemma modelArrived_through_UI :
  throughUI bilinear offeredPatiently opened [Handled (ModelFetched (Normal stubModel))].
Proof. lazy. repeat split; reflexivity. Qed.

(** C7. [stopWebcam] from the Active state does not always release the
    camera.  At the teardown of the component, with the webcam on, the
    cleanup finds the ref of the video element detached: it clears the
    timer and leaves the track of the camera live.  After two clicks on
    the start button before the camera answers, both granted, the stop
    button clears the prediction and the flag, stops the second stream
    and clears the second timer; the first timer and the track of the
    first stream remain.  Every action of both sessions is allowed by
    the page when it happens. *)
Theorem stopWebcam_from_active_keeps_camera :
  let active := performAll bilinear opened grantedStart in
  let torn := perform bilinear active Unmounted in
  let twice := performAll bilinear opened doubleClick in
  let stopped := perform bilinear twice (Handled StopWebcam) in
  (throughUI bilinear offered opened teardown /\
   webcamActive (component active) = true /\
   intervals (component active) = [mkInterval 1 (Some stubModel)] /\
   liveTracks (component active) = camera /\
   intervals (component torn) = [] /\
   intervalRef (component torn) = None /\
   liveTracks (component torn) = camera) /\
  (throughUI bilinear offered opened (doubleClick ++ [Handled StopWebcam]) /\
   webcamActive (component twice) = true /\
   liveTracks (component twice) = (camera ++ secondCamera)%list /\
   webcamActive (component stopped) = false /\
   prediction (component stopped) = None /\
   videoRef (component stopped) = Some (mkVideo None) /\
   intervalRef (component stopped) = None /\
   intervals (component stopped) = [mkInterval 1 (Some stubModel)] /\
   liveTracks (component stopped) = camera).
Proof.
  lazy. repeat split; reflexivity.
Qed.

(** ** Witnesses of the properties of the sessions *)

Lemma startWebcam_enters_active_witness :
  let p := performAll bilinear opened awaitingAnswer in
  let s' := component (perform bilinear p (CameraAnswered (Normal camera))) in
  awaited p = [Some stubModel] /\
  webcamActive s' = true /\
  videoRef s' = Some (mkVideo (Some camera)) /\
  liveTracks s' = camera /\
  intervals s' = [mkInterval 1 (Some stubModel)] /\
  intervalRef s' = Some 1.
Proof.
  pose proof (startWebcam_enters_active bilinear awaitingAnswer (Some stubModel) camera
                awaitingAnswer_through_UI eq_refl)
    as (_ & _ & _ & Hon & Hv & Hl & Hi & Hr & _).
  split; [reflexivity|]. repeat split; assumption.
Defined.

Lemma camera_held_exactly_while_active_witness :
  let s := component (performAll bilinear opened patientSession) in
  webcamActive s = true /\
  if webcamActive s
  then exists t stream,
         intervals s = [t] /\ intervalRef s = Some (handle t) /\
         videoRef s = Some (mkVideo (Some stream)) /\ liveTracks s = stream
  else intervals s = [] /\ intervalRef s = None /\ liveTracks s = [] /\
       forall element, videoRef s = Some element -> srcObject element = None.
Proof.
  split; [reflexivity|].
  exact (camera_held_exactly_while_active bilinear patientSession patientSession_through_UI).
Defined.

Lemma double_click_installs_two_timers_witness :
  let s' := component (performAll bilinear opened doubleClick) in
  throughUI bilinear offered opened doubleClick /\
  webcamActive s' = true /\
  intervals s' = [mkInterval 1 (Some stubModel); mkInterval 2 (Some stubModel)] /\
  intervalRef s' = Some 2.
Proof.
  pose proof (double_click_installs_two_timers bilinear
                [Handled (ModelFetched (Normal stubModel))] camera secondCamera
                modelArrived_through_UI eq_refl)
    as (Hui & Hon & Hi & Hr & _).
  split; [exact Hui|]. split; [exact Hon|]. split; [exact Hi|exact Hr].
Defined.
